(** * Minesweeper: the board, logical sentences and the knowledge-base player

    A shallow embedding of [minesweeper/minesweeper.py].

    - A Python [set] of cells is a [gset (Z * Z)]; where the program iterates
      over a set, the embedding iterates over [elements] of it.  The results
      stated below do not depend on that order unless said otherwise.
    - [Sentence] objects are mutable and are shared between the list
      [MinesweeperAI.knowledge] and local variables, so the embedding keeps an
      object store ([store], indexed by reference) next to the list of
      references.
    - Exceptions are the [Raise] outcomes of a small error monad; a loop whose
      iteration count is not structurally evident takes fuel and answers
      [OutOfFuel] when the fuel does not suffice.
    - The scores of [make_random_move] are Python floats: IEEE 754 binary64
      values with round-to-nearest-even, [OverflowError] where the quotient
      of two integers is too large, infinities and [nan] where a sum gives
      them.
    - The [print] calls of the player are output only and are left out; the
      method [Minesweeper.print] answers with the texts that it writes. *)

From stdpp Require Import gmap list sorting strings.
From Stdlib Require Import ZArith Lia SpecFloat.

#[local] Open Scope Z_scope.
#[local] Set Warnings "-clear-no-such-hyp".

Abbreviation Cell := (Z * Z)%type.

(** ** Outcomes of a call: a value, a Python exception, or not enough fuel *)

Inductive exn : Type := ValueError | ZeroDivisionError | IndexError | OverflowError.

Inductive outcome (A : Type) : Type :=
| Ret (a : A)
| Raise (e : exn)
| OutOfFuel.

Arguments Ret {A} a.
Arguments Raise {A} e.
Arguments OutOfFuel {A}.

#[global] Instance outcome_ret : MRet outcome := fun A a => Ret a.

#[global] Instance outcome_bind : MBind outcome := fun A B f m =>
  match m with
  | Ret a => f a
  | Raise e => Raise e
  | OutOfFuel => OutOfFuel
  end.

#[global] Instance outcome_fmap : FMap outcome := fun A B f m =>
  match m with
  | Ret a => Ret (f a)
  | Raise e => Raise e
  | OutOfFuel => OutOfFuel
  end.

Definition returns {A : Type} (m : outcome A) : Prop := exists a, m = Ret a.

(** [list.remove(x)]: drop the first element that compares equal, or fail. *)
Fixpoint remove_first {A : Type} (p : A -> bool) (l : list A) : option (list A) :=
  match l with
  | [] => None
  | x :: l' => if p x then Some l' else cons x <$> remove_first p l'
  end.

(** ** class Sentence *)

Module Sentence.

Record t : Type := mk { cells : gset Cell; count : Z }.

#[global] Instance eq_dec : EqDecision t.
Proof. solve_decision. Defined.

(** The value of [len(self.cells)] as a Python integer. *)
Definition len (s : t) : Z := Z.of_nat (size (cells s)).

(** [known_mines]: [None] is Python's implicit [return None]. *)
Definition known_mines (s : t) : option (gset Cell) :=
  if bool_decide (count s ≠ 0) then
    if bool_decide (len s = count s) then Some (cells s) else None
  else None.

Definition known_safes (s : t) : option (gset Cell) :=
  if bool_decide (count s = 0) then Some (cells s) else None.

Definition mark_mine (s : t) (cell : Cell) : t :=
  if bool_decide (cell ∈ cells s)
  then mk (cells s ∖ {[cell]}) (count s - 1)
  else s.

Definition mark_safe (s : t) (cell : Cell) : t :=
  if bool_decide (cell ∈ cells s)
  then mk (cells s ∖ {[cell]}) (count s)
  else s.

(** [self.cells.difference_update(other.cells); self.count -= other.count] *)
Definition subtract (s other : t) : t :=
  mk (cells s ∖ cells other) (count s - count other).

(** Truthiness of the value returned by [known_mines] / [known_safes]. *)
Definition truthy (r : option (gset Cell)) : option (gset Cell) :=
  match r with
  | Some X => if bool_decide (X = ∅) then None else Some X
  | None => None
  end.

End Sentence.

(** ** class MinesweeperAI *)

Module MinesweeperAI.

Record t : Type := mk {
  height : Z;
  width : Z;
  moves_made : gset Cell;
  mines : gset Cell;
  safes : gset Cell;
  knowledge : list nat;
  store : list Sentence.t
}.

Definition init (height width : Z) : t := mk height width ∅ ∅ ∅ [] [].

Definition set_store (st : t) (h : list Sentence.t) : t :=
  mk (height st) (width st) (moves_made st) (mines st) (safes st) (knowledge st) h.

Definition set_knowledge (st : t) (k : list nat) : t :=
  mk (height st) (width st) (moves_made st) (mines st) (safes st) k (store st).

(** The object behind a reference. *)
Definition deref (st : t) (r : nat) : Sentence.t :=
  default (Sentence.mk ∅ 0) (store st !! r).

(** The sentences currently in [self.knowledge], in list order. *)
Definition active (st : t) : list Sentence.t := deref st <$> knowledge st.

(** [for sentence in self.knowledge: sentence.f(...)] *)
Definition update_all (f : Sentence.t -> Sentence.t) (st : t) : list Sentence.t :=
  foldl (fun h r => alter f r h) (store st) (knowledge st).

Definition mark_mine (st : t) (cell : Cell) : t :=
  mk (height st) (width st) (moves_made st) ({[cell]} ∪ mines st) (safes st)
     (knowledge st) (update_all (fun s => Sentence.mark_mine s cell) st).

Definition mark_safe (st : t) (cell : Cell) : t :=
  mk (height st) (width st) (moves_made st) (mines st) ({[cell]} ∪ safes st)
     (knowledge st) (update_all (fun s => Sentence.mark_safe s cell) st).

Definition in_bounds (height width : Z) (c : Cell) : Prop :=
  0 ≤ c.1 < height ∧ 0 ≤ c.2 < width.

Definition around (height width : Z) (cell : Cell) : list Cell :=
  i ← seqZ (cell.1 - 1) 3;
  j ← seqZ (cell.2 - 1) 3;
  if bool_decide ((i, j) = cell) then []
  else if bool_decide (in_bounds height width (i, j)) then [(i, j)] else [].

Definition neighbourhood (st : t) (cell : Cell) : gset Cell :=
  list_to_set (around (height st) (width st) cell).

(** Steps 1 and 2 of [add_knowledge]. *)
Definition record_move (st : t) (cell : Cell) : t :=
  let st1 := mk (height st) (width st) ({[cell]} ∪ moves_made st) (mines st)
                (safes st) (knowledge st) (store st) in
  if bool_decide (cell ∈ safes st1) then st1 else mark_safe st1 cell.

(** Step 3: the sentence built from the neighbours, before it is appended. *)
Definition new_sentence (st : t) (cell : Cell) (count : Z) : Sentence.t :=
  let cells := neighbourhood st cell ∖ safes st in
  foldl (fun s c => if bool_decide (c ∈ mines st) then Sentence.mark_mine s c else s)
        (Sentence.mk cells count) (elements cells).

(** [self.knowledge.append(NewSentence)]: a fresh object and its reference. *)
Definition append (st : t) (s : Sentence.t) : t * nat :=
  let r := length (store st) in
  (mk (height st) (width st) (moves_made st) (mines st) (safes st)
      (knowledge st ++ [r]) (store st ++ [s]), r).

(** Step 4, the body for one sentence. *)
Definition propagate (st : t) (r : nat) : t :=
  let st1 :=
    match Sentence.truthy (Sentence.known_mines (deref st r)) with
    | Some X => foldl mark_mine st (elements X)
    | None => st
    end in
  match Sentence.truthy (Sentence.known_safes (deref st1 r)) with
  | Some X => foldl mark_safe st1 (elements X)
  | None => st1
  end.

Definition propagate_all (st : t) : t := foldl propagate st (knowledge st).

(** [self.knowledge.remove(sentence)]: the first element equal to it by
    [Sentence.__eq__] goes; [ValueError] when there is none. *)
Definition remove (st : t) (r : nat) : outcome t :=
  match remove_first (fun r' => bool_decide (deref st r' = deref st r)) (knowledge st) with
  | Some k => Ret (set_knowledge st k)
  | None => Raise ValueError
  end.

(** The [if / elif / elif] at the head of [check_knowledge]. *)
Definition resolve (st : t) (r : nat) : outcome t :=
  let s := deref st r in
  if bool_decide (Sentence.len s = 0) then remove st r
  else if bool_decide (Sentence.count s = 0) then
    remove (foldl mark_safe st (elements (Sentence.cells s))) r
  else if bool_decide (Sentence.len s = Sentence.count s) then
    remove (foldl mark_mine st (elements (Sentence.cells s))) r
  else Ret st.

(** The body of [for sentence2 in self.knowledge] in [check_knowledge]. *)
Definition compare (r : nat) (st : t) (r2 : nat) : t :=
  let st1 :=
    if bool_decide (Sentence.cells (deref st r2) ⊂ Sentence.cells (deref st r))
    then set_store st (alter (fun s => Sentence.subtract s (deref st r2)) r (store st))
    else st in
  if bool_decide (Sentence.cells (deref st1 r) ⊂ Sentence.cells (deref st1 r2))
  then set_store st1 (alter (fun s2 => Sentence.subtract s2 (deref st1 r)) r2 (store st1))
  else st1.

Definition check_knowledge (st : t) (r : nat) : outcome t :=
  st1 ← resolve st r;
  mret (foldl (compare r) st1 (knowledge st1)).

(** [for sentence in self.knowledge: self.check_knowledge(sentence)], the list
    iterator being an index into the list that the body shortens. *)
Fixpoint check_from (fuel : nat) (i : nat) (st : t) : outcome t :=
  match knowledge st !! i with
  | None => Ret st
  | Some r =>
      match fuel with
      | O => OutOfFuel
      | S fuel' => st1 ← check_knowledge st r; check_from fuel' (S i) st1
      end
  end.

Definition check_all (st : t) : outcome t :=
  check_from (length (knowledge st)) 0 st.

(** The tail of [add_knowledge]: [check_knowledge(NewSentence)] followed by
    [for i in range(2)] over the whole list. *)
Definition inference_passes (st : t) (new : nat) : outcome t :=
  st1 ← check_knowledge st new;
  st2 ← check_all st1;
  check_all st2.

Definition insert_new (st : t) (cell : Cell) (count : Z) : t * nat :=
  let st1 := record_move st cell in
  append st1 (new_sentence st1 cell count).

Definition add_knowledge (st : t) (cell : Cell) (count : Z) : outcome t :=
  let '(st2, new) := insert_new st cell count in
  inference_passes (propagate_all st2) new.

Definition make_safe_move (st : t) : option Cell :=
  head (elements (safes st ∖ moves_made st)).

(** The cells of the board in row-major order. *)
Definition board_cells (st : t) : list Cell :=
  i ← seqZ 0 (height st); j ← seqZ 0 (width st); [(i, j)].

(** The [else] branch of [make_random_move]; [None] is Python's [None]. *)
Definition first_free (st : t) : option Cell :=
  head (filter (fun c => c ∉ mines st ∪ moves_made st) (board_cells st)).

End MinesweeperAI.

(** ** Python floats

    A float is an IEEE 754 binary64 value.  Every finite one is a whole
    multiple of [2^-1074], and [Finite n] stands for [n * 2^-1074].  The two
    zeros are one value here: the sums and the comparisons, which is all
    that the program does with a score, do not tell them apart. *)

Module Float.

Inductive t : Type := Finite (n : Z) | Inf (negative : bool) | NaN.

#[global] Instance eq_dec : EqDecision t.
Proof. solve_decision. Defined.

(** The number [1] and the bound [2^1024], in units of [2^-1074]. *)
Definition one : Z := 2 ^ 1074.
Definition huge : Z := 2 ^ 2098.

(** The quotient [n / d] rounded to the nearest integer, a tie to the even
    one; [0 < d]. *)
Definition nearest (n d : Z) : Z :=
  let q := n / d in
  let r := n mod d in
  if 2 * r <? d then q
  else if d <? 2 * r then q + 1
  else if Z.even q then q else q + 1.

(** The weight of the last of the 53 bits of a value whose whole part is
    [f]: [2^shift f] units.  Below [2^53] units, which covers the
    subnormal values, it is the unit itself. *)
Definition shift (f : Z) : Z := Z.max 0 (Z.log2 f - 52).

(** [n / d] units rounded to 53 significant bits, for [0 ≤ n] and [0 < d],
    with no bound on the exponent. *)
Definition round_pos (n d : Z) : Z :=
  let k := shift (n / d) in
  nearest n (d * 2 ^ k) * 2 ^ k.

(** [n / d] units as a float: the sign apart, and an infinity when the
    rounded value reaches [2^1024]. *)
Definition round (n d : Z) : t :=
  let m := round_pos (Z.abs n) d in
  if huge <=? m then Inf (n <? 0) else Finite (Z.sgn n * m).

(** The quotient of two integers, rounded once. *)
Definition quotient (a b : Z) : t := round (Z.sgn b * a * one) (Z.abs b).

(** [a / b] for Python integers [a] and [b]. *)
Definition div (a b : Z) : outcome t :=
  if bool_decide (b = 0) then Raise ZeroDivisionError
  else
    match quotient a b with
    | Finite n => Ret (Finite n)
    | _ => Raise OverflowError
    end.

(** [x + y] *)
Definition add (x y : t) : t :=
  match x, y with
  | NaN, _ | _, NaN => NaN
  | Finite a, Finite b => round (a + b) 1
  | Inf s, Inf s' => if Bool.eqb s s' then Inf s else NaN
  | Inf s, Finite _ | Finite _, Inf s => Inf s
  end.

(** [x < y] *)
Definition ltb (x y : t) : bool :=
  match x, y with
  | NaN, _ | _, NaN => false
  | Finite a, Finite b => a <? b
  | Inf s, Inf s' => s && negb s'
  | Inf s, Finite _ => s
  | Finite _, Inf s => negb s
  end.

(** [x <= y] *)
Definition leb (x y : t) : bool :=
  match x, y with
  | NaN, _ | _, NaN => false
  | Finite a, Finite b => a <=? b
  | Inf s, Inf s' => s || negb s'
  | Inf s, Finite _ => s
  | Finite _, Inf s => negb s
  end.

(** The same value in the Standard Library's specification of IEEE 754
    arithmetic, and a Python integer there. *)
Definition to_spec (x : t) : spec_float :=
  match x with
  | Finite n => binary_normalize 53 1024 n (-1074) false
  | Inf s => S754_infinity s
  | NaN => S754_nan
  end.

Definition int_to_spec (a : Z) : spec_float :=
  match a with
  | 0 => S754_zero false
  | Z.pos p => S754_finite false p 0
  | Z.neg p => S754_finite true p 0
  end.

End Float.

(** ** class Cell_stat: the class attribute [all_cell]

    One dict for the whole program, whatever the number of [MinesweeperAI]
    objects: it is threaded through [make_random_move] and through nothing
    else.  A dict keeps its keys in insertion order. *)

Module Cell_stat.

Definition table : Type := list (Cell * Float.t).

(** [all_cell.get(c)] *)
Fixpoint get (tbl : table) (c : Cell) : option Float.t :=
  match tbl with
  | [] => None
  | (c', x) :: tbl' => if bool_decide (c' = c) then Some x else get tbl' c
  end.

(** [if cell not in all_cell.keys(): all_cell[cell] = p] and
    [elif cell in all_cell.keys(): all_cell[cell] += p]. *)
Fixpoint add (tbl : table) (c : Cell) (p : Float.t) : table :=
  match tbl with
  | [] => [(c, p)]
  | (c', x) :: tbl' =>
      if bool_decide (c' = c) then (c', Float.add x p) :: tbl'
      else (c', x) :: add tbl' c p
  end.

(** [min(all_cell, key=all_cell.get)]: the scan keeps the key it holds
    unless the value of the next one compares [<] to the value it holds. *)
Fixpoint min_from (best : Cell * Float.t) (tbl : table) : Cell :=
  match tbl with
  | [] => best.1
  | e :: tbl' => min_from (if Float.ltb e.2 best.2 then e else best) tbl'
  end.

Definition min_key (tbl : table) : option Cell :=
  match tbl with
  | [] => None
  | e :: tbl' => Some (min_from e tbl')
  end.

(** [sentence.count / len(sentence.cells)] *)
Definition single_probability (s : Sentence.t) : outcome Float.t :=
  Float.div (Sentence.count s) (Sentence.len s).

(** The scoring loop: the table as the loop leaves it, and how the loop
    ends. *)
Fixpoint score (tbl : table) (l : list Sentence.t) : table * outcome () :=
  match l with
  | [] => (tbl, Ret ())
  | s :: l' =>
      match single_probability s with
      | Ret p => score (foldl (fun t c => add t c p) tbl (elements (Sentence.cells s))) l'
      | Raise e => (tbl, Raise e)
      | OutOfFuel => (tbl, OutOfFuel)
      end
  end.

(** [MinesweeperAI.make_random_move], with the table before and after. *)
Definition make_random_move (st : MinesweeperAI.t) (tbl : table)
  : outcome (option Cell) * table :=
  match score tbl (MinesweeperAI.active st) with
  | (tbl', Ret _) =>
      (Ret (match min_key tbl' with
            | Some c => Some c
            | None => MinesweeperAI.first_free st
            end), tbl')
  | (tbl', Raise e) => (Raise e, tbl')
  | (tbl', OutOfFuel) => (OutOfFuel, tbl')
  end.

End Cell_stat.

(** ** class Minesweeper *)

Module Minesweeper.

Record t : Type := mk {
  height : Z;
  width : Z;
  mines : gset Cell;
  board : list (list bool);
  mines_found : gset Cell
}.

(** [l[i]] with Python's negative indices and [IndexError]. *)
Definition index {A : Type} (l : list A) (i : Z) : outcome A :=
  let n := Z.of_nat (length l) in
  let k := if bool_decide (i < 0) then n + i else i in
  if bool_decide (0 ≤ k < n) then
    match l !! Z.to_nat k with
    | Some x => Ret x
    | None => Raise IndexError
    end
  else Raise IndexError.

(** [l[i] = x], same indexing. *)
Definition assign {A : Type} (l : list A) (i : Z) (x : A) : outcome (list A) :=
  let n := Z.of_nat (length l) in
  let k := if bool_decide (i < 0) then n + i else i in
  if bool_decide (0 ≤ k < n) then Ret (<[Z.to_nat k := x]> l)
  else Raise IndexError.

(** The field before any mine is placed. *)
Definition empty_board (height width : Z) : list (list bool) :=
  replicate (Z.to_nat height) (replicate (Z.to_nat width) false).

(** [while len(self.mines) != mines]: each round takes the next pair drawn by
    [random.randrange(height)], [random.randrange(width)] from [draws];
    [OutOfFuel] says that the loop is still running when [draws] is used up. *)
Fixpoint place (draws : list Cell) (g : t) (n : Z) : outcome t :=
  if bool_decide (Z.of_nat (size (mines g)) = n) then Ret g
  else if bool_decide (height g ≤ 0 ∨ width g ≤ 0) then Raise ValueError
  else
    match draws with
    | [] => OutOfFuel
    | (i, j) :: draws' =>
        row ← index (board g) i;
        b ← index row j;
        if (b : bool) then place draws' g n
        else
          row' ← assign row j true;
          board' ← assign (board g) i row';
          place draws' (mk (height g) (width g) ({[(i, j)]} ∪ mines g) board'
                           (mines_found g)) n
    end.

Definition init (height width n : Z) (draws : list Cell) : outcome t :=
  place draws (mk height width ∅ (empty_board height width) ∅) n.

Definition is_mine (g : t) (cell : Cell) : outcome bool :=
  row ← index (board g) cell.1; index row cell.2.

Definition in_bounds (g : t) (c : Cell) : Prop :=
  0 ≤ c.1 < height g ∧ 0 ≤ c.2 < width g.

(** The nine cells [(i, j)] of the two nested [range] loops. *)
Definition square (cell : Cell) : list Cell :=
  i ← seqZ (cell.1 - 1) 3; j ← seqZ (cell.2 - 1) 3; [(i, j)].

(** The body of the two loops of [nearby_mines] for the cell [c]. *)
Definition count_cell (g : t) (cell : Cell) (acc : outcome Z) (c : Cell) : outcome Z :=
  count ← acc;
  if bool_decide (c = cell) then mret count
  else if bool_decide (in_bounds g c) then
    b ← is_mine g c; mret (if b : bool then count + 1 else count)
  else mret count.

Definition nearby_mines (g : t) (cell : Cell) : outcome Z :=
  foldl (count_cell g cell) (mret 0) (square cell).

Definition neighbourhood (g : t) (cell : Cell) : gset Cell :=
  list_to_set (MinesweeperAI.around (height g) (width g) cell).

Definition won (g : t) : bool := bool_decide (mines_found g = mines g).

(** Python's line feed, which [print] writes after its argument unless
    [end] says otherwise. *)
Definition newline : string := String (Ascii.ascii_of_nat 10) EmptyString.

(** [print("--" * self.width + "-")]: the text written. *)
Definition rule (g : t) : string :=
  String.concat "" (replicate (Z.to_nat (width g)) "--") +:+ "-" +:+ newline.

(** The loop of [print] over the columns [js] of row [i], then [print("|")]:
    the texts written, one for each call of Python's [print], and how the
    loop ends. *)
Fixpoint print_row (g : t) (i : Z) (js : list Z) : list string * outcome () :=
  match js with
  | [] => (["|" +:+ newline], Ret ())
  | j :: js' =>
      match is_mine g (i, j) with
      | Ret b =>
          let (out, r) := print_row g i js' in
          ((if b : bool then "|X" else "| ") :: out, r)
      | Raise e => ([], Raise e)
      | OutOfFuel => ([], OutOfFuel)
      end
  end.

(** The loop of [print] over the rows [rows], then the closing rule. *)
Fixpoint print_rows (g : t) (rows : list Z) : list string * outcome () :=
  match rows with
  | [] => ([rule g], Ret ())
  | i :: rows' =>
      let (row, r) := print_row g i (seqZ 0 (width g)) in
      match r with
      | Ret _ => let (out, r') := print_rows g rows' in (rule g :: row ++ out, r')
      | _ => (rule g :: row, r)
      end
  end.

(** [print]: what is written to the standard output, and how the method
    ends. *)
Definition print (g : t) : list string * outcome () :=
  print_rows g (seqZ 0 (height g)).

End Minesweeper.

(** * Vocabulary of the statements *)

(** ** Playing against one fixed board

    [M] is the set of cells that hold a mine.  A sentence is true of the board
    when its count is the number of its cells that hold a mine. *)

Definition true_of (M : gset Cell) (s : Sentence.t) : Prop :=
  Sentence.count s = Z.of_nat (size (Sentence.cells s ∩ M)).

(** What the player knows is right: every sentence object is true of the
    board, every confirmed mine is a mine and no confirmed safe cell is. *)
Record sound (M : gset Cell) (st : MinesweeperAI.t) : Prop := {
  sound_store : Forall (true_of M) (MinesweeperAI.store st);
  sound_mines : MinesweeperAI.mines st ⊆ M;
  sound_safes : MinesweeperAI.safes st ## M
}.

(** The calls that change a [MinesweeperAI] object. *)
Inductive op : Type :=
| AddKnowledge (cell : Cell) (count : Z)
| MarkMine (cell : Cell)
| MarkSafe (cell : Cell).

Definition step (st : MinesweeperAI.t) (o : op) : outcome MinesweeperAI.t :=
  match o with
  | AddKnowledge cell count => MinesweeperAI.add_knowledge st cell count
  | MarkMine cell => Ret (MinesweeperAI.mark_mine st cell)
  | MarkSafe cell => Ret (MinesweeperAI.mark_safe st cell)
  end.

Fixpoint run (st : MinesweeperAI.t) (os : list op) : outcome MinesweeperAI.t :=
  match os with
  | [] => Ret st
  | o :: os' => st' ← step st o; run st' os'
  end.

(** An input agrees with the board: a revealed cell holds no mine and comes
    with the number of mines around it; a cell is marked as what it is. *)
Definition consistent (M : gset Cell) (height width : Z) (o : op) : Prop :=
  match o with
  | AddKnowledge cell count =>
      (cell ∉ M) ∧
      count = Z.of_nat (size (list_to_set (MinesweeperAI.around height width cell) ∩ M))
  | MarkMine cell => cell ∈ M
  | MarkSafe cell => cell ∉ M
  end.

(** A turn is one [add_knowledge] call. *)
Definition turns (l : list (Cell * Z)) : list op :=
  (fun t => AddKnowledge t.1 t.2) <$> l.

(** The bounds of the statement-count invariant. *)
Definition count_in_range (s : Sentence.t) : Prop :=
  0 ≤ Sentence.count s ≤ Sentence.len s.

(** ** What a call leaves alone, the score table, the board *)

(** Two states of one player: same board size. *)
Definition same_board (st st' : MinesweeperAI.t) : Prop :=
  MinesweeperAI.height st' = MinesweeperAI.height st ∧
  MinesweeperAI.width st' = MinesweeperAI.width st.

(** Same board size and same list of references. *)
Definition same_list (st st' : MinesweeperAI.t) : Prop :=
  same_board st st' ∧ MinesweeperAI.knowledge st' = MinesweeperAI.knowledge st.







(** The grid has the declared shape, a grid entry is [True] exactly at the
    cells of the mine set, and the mine set lies within the grid. *)
Record board_ok (g : Minesweeper.t) : Prop := {
  ok_rows : length (Minesweeper.board g) = Z.to_nat (Minesweeper.height g);
  ok_cols : Forall (fun row => length row = Z.to_nat (Minesweeper.width g))
                   (Minesweeper.board g);
  ok_cells : ∀ (i j : nat) row b,
      Minesweeper.board g !! i = Some row → row !! j = Some b →
      b = bool_decide ((Z.of_nat i, Z.of_nat j) ∈ Minesweeper.mines g);
  ok_mines : ∀ c, c ∈ Minesweeper.mines g → Minesweeper.in_bounds g c
}.

(** What [randrange] promises about a drawn pair. *)
Definition drawn_in (height width : Z) (d : Cell) : Prop :=
  0 ≤ d.1 < height ∧ 0 ≤ d.2 < width.

(** The methods of [Minesweeper] other than [__init__]; none assigns to an
    attribute, so each leaves the object as it found it. *)
Inductive query : Type :=
| IsMine (cell : Cell)
| NearbyMines (cell : Cell)
| Neighbourhood (cell : Cell)
| Won.

Inductive answer : Type :=
| ABool (b : outcome bool)
| AInt (n : outcome Z)
| ACells (X : gset Cell).

Definition call (g : Minesweeper.t) (q : query) : Minesweeper.t * answer :=
  match q with
  | IsMine cell => (g, ABool (Minesweeper.is_mine g cell))
  | NearbyMines cell => (g, AInt (Minesweeper.nearby_mines g cell))
  | Neighbourhood cell => (g, ACells (Minesweeper.neighbourhood g cell))
  | Won => (g, ABool (Ret (Minesweeper.won g)))
  end.

Definition after_calls (g : Minesweeper.t) (qs : list query) : Minesweeper.t :=
  foldl (fun g q => (call g q).1) g qs.

(** The cells that [nearby_mines] adds up: mines on the grid other than the
    cell itself. *)
Definition counted (g : Minesweeper.t) (cell c : Cell) : Prop :=
  c ≠ cell ∧ Minesweeper.in_bounds g c ∧ c ∈ Minesweeper.mines g.

#[global] Instance counted_dec g cell c : Decision (counted g cell c).
Proof. unfold counted, Minesweeper.in_bounds. apply _. Defined.

(** The cells of a [height] by [width] grid, row by row. *)
Definition grid_cells (height width : Z) : list Cell :=
  i ← seqZ 0 height; j ← seqZ 0 width; [(i, j)].

(** ** Concrete boards and games *)

Ltac agrees_with_board :=
  repeat first [apply List.Forall_nil | apply List.Forall_cons];
  (split; [apply (bool_decide_unpack _); vm_compute; exact I
          |vm_compute; reflexivity]).

(** A 2 by 3 board with mines in two corners of the top row, and three
    reveals along the bottom row. *)
Definition board23 : gset Cell := {[(0, 0); (0, 2)]}.
Definition game23 : list (Cell * Z) := [((1, 2), 1); ((1, 0), 1); ((1, 1), 2)].

(** The third turn of [game23] up to the point where the passes start. *)
Definition third_turn23 : outcome (MinesweeperAI.t * nat) :=
  st ← run (MinesweeperAI.init 2 3) (turns (take 2 game23));
  let p := MinesweeperAI.insert_new st (1, 1) 2 in
  mret (MinesweeperAI.propagate_all p.1, p.2).

(** A 1 by 7 board with mines at columns 0 and 4, and four reveals. *)
Definition board17 : gset Cell := {[(0, 0); (0, 4)]}.
Definition game17 : list (Cell * Z) :=
  [((0, 1), 1); ((0, 3), 1); ((0, 5), 1); ((0, 6), 0)].

(** A 1 by 5 board with one mine in the last column; two reveals with a
    [make_random_move] call between them and one after them. *)
Definition board15 : gset Cell := {[(0, 4)]}.
Definition game15 : list (Cell * Z) := [((0, 3), 1); ((0, 1), 0)].

(** The table left by the call between the two reveals, starting from the
    empty table of a new program. *)
Definition table15 : outcome Cell_stat.table :=
  (fun st => (Cell_stat.make_random_move st []).2)
    <$> run (MinesweeperAI.init 1 5) (turns (take 1 game15)).

(** A knowledge base that holds the sentences [{1,2,3} = 2] and [{1,2} = 1]
    and nothing else, the cells being those of row 0; [k] is the order of the
    two in the list. *)
Definition pair_kb (k : list nat) : MinesweeperAI.t :=
  MinesweeperAI.mk 1 5 ∅ ∅ ∅ k
    [Sentence.mk {[(0, 1); (0, 2); (0, 3)]} 2; Sentence.mk {[(0, 1); (0, 2)]} 1].

(** A reveal, then the two corner mines and a safe cell marked by hand. *)
Definition marks23 : list op :=
  [AddKnowledge (1, 2) 1; MarkMine (0, 0); MarkSafe (1, 0); MarkMine (0, 2)].

(** A player on the 2 by 3 board who knows one safe cell and one mine. *)
Definition player23 : MinesweeperAI.t :=
  MinesweeperAI.mk 2 3 {[(1, 2)]} {[(0, 2)]} {[(1, 2)]} [] [].




(** ** Vocabulary of the further properties *)


(** A reveal as the game makes it: a cell of the grid that holds no mine,
    with the count that [nearby_mines] returns for it. *)
Definition revealed (g : Minesweeper.t) (t : Cell * Z) : Prop :=
  Minesweeper.in_bounds g t.1 ∧
  Minesweeper.is_mine g t.1 = Ret false ∧
  Minesweeper.nearby_mines g t.1 = Ret t.2.

Definition sentence3 : Sentence.t := Sentence.mk {[(0, 0); (0, 1); (0, 2)]} 2.

(** Row-major order of the cells: an earlier row, or the same row and an
    earlier column. *)
Definition before (c c' : Cell) : Prop :=
  c.1 < c'.1 ∨ (c.1 = c'.1 ∧ c.2 < c'.2).

(** A cell that is neither a known mine nor a move made. *)
Definition free (st : MinesweeperAI.t) (c : Cell) : Prop :=
  c ∉ MinesweeperAI.mines st ∪ MinesweeperAI.moves_made st.





(** The picture of the mine set [M] on a [height] by [width] grid: for each
    row the rule [line], a text for each cell, ["|X"] on the cells of [M],
    and the closing bar; the rule once more at the end. *)
Definition picture_row (M : gset Cell) (width i : Z) : list string :=
  ((fun j => if bool_decide ((i, j) ∈ M) then "|X" else "| ") <$> seqZ 0 width)
  ++ ["|" +:+ Minesweeper.newline].

Definition picture (M : gset Cell) (height width : Z) (line : string) : list string :=
  (i ← seqZ 0 height; line :: picture_row M width i) ++ [line].

(** * Properties of [Sentence] *)

(** C2. [known_safes] gives the cell set exactly when the count is zero, and
    [known_mines] gives it exactly when the count is positive and equals the
    number of cells; otherwise each gives [None]. *)
Theorem terminal_statements (s : Sentence.t) :
  Sentence.known_safes s =
    (if bool_decide (Sentence.count s = 0) then Some (Sentence.cells s) else None) ∧
  Sentence.known_mines s =
    (if bool_decide (0 < Sentence.count s ∧
                     Sentence.count s = Z.of_nat (size (Sentence.cells s)))
     then Some (Sentence.cells s) else None).
Proof.
  split; [reflexivity|].
  unfold Sentence.known_mines, Sentence.len.
  repeat case_bool_decide; try reflexivity; lia.
Qed.

Lemma sentence_mark_mine_absent (s : Sentence.t) (c : Cell) :
  c ∉ Sentence.cells s → Sentence.mark_mine s c = s.
Proof. intros Hc. unfold Sentence.mark_mine. by rewrite bool_decide_false. Qed.

Lemma sentence_mark_mine_removes (s : Sentence.t) (c : Cell) :
  c ∉ Sentence.cells (Sentence.mark_mine s c).
Proof.
  unfold Sentence.mark_mine. case_bool_decide; simpl; set_solver.
Qed.

Lemma sentence_mark_mine_idemp (s : Sentence.t) (c : Cell) :
  Sentence.mark_mine (Sentence.mark_mine s c) c = Sentence.mark_mine s c.
Proof. apply sentence_mark_mine_absent, sentence_mark_mine_removes. Qed.

Lemma true_mark_mine (M : gset Cell) (s : Sentence.t) (c : Cell) :
  c ∈ M → true_of M s → true_of M (Sentence.mark_mine s c).
Proof.
  unfold true_of, Sentence.mark_mine. intros HM Hs.
  case_bool_decide as Hc; [simpl|done].
  assert ((Sentence.cells s ∖ {[c]}) ∩ M = (Sentence.cells s ∩ M) ∖ {[c]}) as ->
    by set_solver.
  assert ({[c]} ⊆ Sentence.cells s ∩ M) as Hsub by set_solver.
  rewrite size_difference by done.
  apply subseteq_size in Hsub. rewrite size_singleton in *. lia.
Qed.

Lemma true_mark_safe (M : gset Cell) (s : Sentence.t) (c : Cell) :
  c ∉ M → true_of M s → true_of M (Sentence.mark_safe s c).
Proof.
  unfold true_of, Sentence.mark_safe. intros HM Hs.
  case_bool_decide as Hc; [simpl|done].
  by assert ((Sentence.cells s ∖ {[c]}) ∩ M = Sentence.cells s ∩ M) as ->
    by set_solver.
Qed.

Lemma true_subtract (M : gset Cell) (s s2 : Sentence.t) :
  Sentence.cells s2 ⊆ Sentence.cells s →
  true_of M s → true_of M s2 → true_of M (Sentence.subtract s s2).
Proof.
  unfold true_of, Sentence.subtract. intros Hsub Hs Hs2. simpl.
  assert ((Sentence.cells s ∖ Sentence.cells s2) ∩ M
          = (Sentence.cells s ∩ M) ∖ (Sentence.cells s2 ∩ M)) as -> by set_solver.
  assert (Sentence.cells s2 ∩ M ⊆ Sentence.cells s ∩ M) as Hsub' by set_solver.
  rewrite size_difference by done.
  apply subseteq_size in Hsub'. lia.
Qed.

Lemma true_in_range (M : gset Cell) (s : Sentence.t) :
  true_of M s → count_in_range s.
Proof.
  unfold true_of, count_in_range, Sentence.len. intros ->.
  assert (Sentence.cells s ∩ M ⊆ Sentence.cells s) as Hsub by set_solver.
  apply subseteq_size in Hsub. lia.
Qed.

(** A true sentence with count zero has no mine among its cells. *)
Lemma true_all_safe (M : gset Cell) (s : Sentence.t) :
  true_of M s → Sentence.count s = 0 → Sentence.cells s ## M.
Proof.
  unfold true_of. intros Hs H0.
  assert (size (Sentence.cells s ∩ M) = 0%nat) as Hsz by lia.
  apply size_empty_inv in Hsz. set_solver.
Qed.

(** A true sentence whose count is its size has only mines. *)
Lemma true_all_mines (M : gset Cell) (s : Sentence.t) :
  true_of M s → Sentence.len s = Sentence.count s → Sentence.cells s ⊆ M.
Proof.
  unfold true_of, Sentence.len. intros Hs Hlen.
  assert (Sentence.cells s ∩ M = Sentence.cells s) as Heq.
  { apply set_subseteq_size_eq; [set_solver|lia]. }
  set_solver.
Qed.

(** * Propagation of facts through the knowledge base *)

Section update_all.
Context {A : Type} (f : A → A).


Lemma foldl_alter_Forall (P : A → Prop) (k : list nat) (h : list A) :
  (∀ x, P x → P (f x)) → Forall P h → Forall P (foldl (fun h r => alter f r h) h k).
Proof.
  intros Hf. revert h. induction k as [|r k IH]; intros h Hh; simpl; [done|].
  apply IH, Forall_alter; auto.
Qed.

Lemma foldl_alter_lookup (k : list nat) (h : list A) (i : nat) :
  (∀ x, f (f x) = f x) →
  foldl (fun h r => alter f r h) h k !! i
  = if bool_decide (i ∈ k) then f <$> h !! i else h !! i.
Proof.
  intros Hf. revert h. induction k as [|r k IH]; intros h; cbn [foldl].
  { by rewrite bool_decide_false by set_solver. }
  rewrite IH. destruct (decide (i = r)) as [->|Hne].
  - rewrite list_lookup_alter_eq, (bool_decide_true (_ ∈ _ :: _)) by set_solver.
    case_bool_decide; [|done].
    destruct (h !! r); simpl; by rewrite ?Hf.
  - rewrite list_lookup_alter_ne by done.
    rewrite (bool_decide_ext (i ∈ r :: k) (i ∈ k)); [done|set_solver].
Qed.

End update_all.

(** C8. Marking the same cell as a mine twice in a row leaves the mine set and
    every sentence as the first call left them; on a single sentence the
    second [mark_mine] finds the cell gone and changes nothing. *)
Theorem mark_mine_idempotent (st : MinesweeperAI.t) (c : Cell) :
  MinesweeperAI.mark_mine (MinesweeperAI.mark_mine st c) c = MinesweeperAI.mark_mine st c
  ∧ ∀ s : Sentence.t,
      Sentence.mark_mine (Sentence.mark_mine s c) c = Sentence.mark_mine s c.
Proof.
  split; [|intros s; apply sentence_mark_mine_idemp].
  unfold MinesweeperAI.mark_mine; simpl. f_equal; [set_solver|].
  unfold MinesweeperAI.update_all; simpl.
  apply list_eq. intros i.
  rewrite !foldl_alter_lookup by (intros; apply sentence_mark_mine_idemp).
  case_bool_decide; [|done].
  destruct (MinesweeperAI.store st !! i); simpl; [|done].
  by rewrite sentence_mark_mine_idemp.
Qed.

(** ** What each step leaves alone *)

Lemma same_board_refl st : same_board st st.
Proof. by split. Qed.

Lemma same_board_trans st1 st2 st3 :
  same_board st1 st2 → same_board st2 st3 → same_board st1 st3.
Proof. intros [??] [??]. split; congruence. Qed.

Lemma same_list_refl st : same_list st st.
Proof. split; [apply same_board_refl|done]. Qed.

Lemma same_list_trans st1 st2 st3 :
  same_list st1 st2 → same_list st2 st3 → same_list st1 st3.
Proof. intros [??] [??]. split; [by eapply same_board_trans|congruence]. Qed.

Lemma same_list_mark_mine st c : same_list st (MinesweeperAI.mark_mine st c).
Proof. by repeat split. Qed.

Lemma same_list_mark_safe st c : same_list st (MinesweeperAI.mark_safe st c).
Proof. by repeat split. Qed.

Lemma same_list_foldl (f : MinesweeperAI.t → Cell → MinesweeperAI.t) st cs :
  (∀ st c, same_list st (f st c)) → same_list st (foldl f st cs).
Proof.
  intros Hf. revert st. induction cs as [|c cs IH]; intros st; simpl.
  - apply same_list_refl.
  - eapply same_list_trans; [apply Hf|apply IH].
Qed.

Lemma same_list_propagate st r : same_list st (MinesweeperAI.propagate st r).
Proof.
  unfold MinesweeperAI.propagate.
  set (st1 := match Sentence.truthy (Sentence.known_mines _) with
              | Some X => _ | None => _ end).
  assert (same_list st st1) as H1.
  { subst st1. destruct (Sentence.truthy (Sentence.known_mines _));
      [apply same_list_foldl, same_list_mark_mine|apply same_list_refl]. }
  eapply same_list_trans; [exact H1|].
  destruct (Sentence.truthy (Sentence.known_safes _));
    [apply same_list_foldl, same_list_mark_safe|apply same_list_refl].
Qed.

Lemma same_list_propagate_from st k :
  same_list st (foldl MinesweeperAI.propagate st k).
Proof.
  revert st. induction k as [|r k IH]; intros st; simpl.
  - apply same_list_refl.
  - eapply same_list_trans; [apply same_list_propagate|apply IH].
Qed.

Lemma same_list_compare r st r2 : same_list st (MinesweeperAI.compare r st r2).
Proof.
  unfold MinesweeperAI.compare. repeat case_bool_decide; by repeat split.
Qed.

Lemma same_list_compare_all r st k :
  same_list st (foldl (MinesweeperAI.compare r) st k).
Proof.
  revert st. induction k as [|r2 k IH]; intros st; simpl.
  - apply same_list_refl.
  - eapply same_list_trans; [apply same_list_compare|apply IH].
Qed.

(** ** Removal from the list *)

Lemma remove_first_Some {A : Type} (p : A → bool) (l : list A) (x : A) :
  x ∈ l → p x = true → is_Some (remove_first p l).
Proof.
  intros Hx Hp. induction l as [|y l IH]; [by apply elem_of_nil in Hx|].
  simpl. destruct (p y) eqn:Hy; [done|].
  apply elem_of_cons in Hx as [->|Hx]; [congruence|].
  destruct (IH Hx) as [l' ->]. done.
Qed.

Lemma remove_first_length {A : Type} (p : A → bool) (l l' : list A) :
  remove_first p l = Some l' → length l = S (length l').
Proof.
  revert l'. induction l as [|y l IH]; intros l'; simpl; [done|].
  destruct (p y); [by intros [= ->]|].
  destruct (remove_first p l) as [l''|]; simpl; [|done].
  intros [= <-]. simpl. by rewrite (IH l'').
Qed.

Lemma remove_returns st r :
  r ∈ MinesweeperAI.knowledge st → returns (MinesweeperAI.remove st r).
Proof.
  intros Hr. unfold MinesweeperAI.remove.
  destruct (remove_first_Some
    (fun r' => bool_decide (MinesweeperAI.deref st r' = MinesweeperAI.deref st r))
    (MinesweeperAI.knowledge st) r Hr) as [k ->]; [by apply bool_decide_eq_true|].
  by eexists.
Qed.

Lemma remove_inv st r st' :
  MinesweeperAI.remove st r = Ret st' →
  ∃ k, st' = MinesweeperAI.set_knowledge st k ∧
       length (MinesweeperAI.knowledge st) = S (length k).
Proof.
  unfold MinesweeperAI.remove.
  destruct (remove_first _ _) as [k|] eqn:Hk; [|done].
  intros [= <-]. exists k. split; [done|]. by eapply remove_first_length.
Qed.

Lemma resolve_returns st r :
  r ∈ MinesweeperAI.knowledge st → returns (MinesweeperAI.resolve st r).
Proof.
  intros Hr. unfold MinesweeperAI.resolve.
  repeat case_bool_decide; try by eexists.
  - by apply remove_returns.
  - apply remove_returns.
    by rewrite (proj2 (same_list_foldl _ st _ same_list_mark_safe)).
  - apply remove_returns.
    by rewrite (proj2 (same_list_foldl _ st _ same_list_mark_mine)).
Qed.

Lemma resolve_shape st r st' :
  MinesweeperAI.resolve st r = Ret st' →
  same_board st st' ∧
  (length (MinesweeperAI.knowledge st') ≤ length (MinesweeperAI.knowledge st))%nat.
Proof.
  unfold MinesweeperAI.resolve.
  repeat case_bool_decide.
  - intros (k & -> & Hk)%remove_inv. split; [by split|simpl; lia].
  - intros (k & -> & Hk)%remove_inv.
    destruct (same_list_foldl MinesweeperAI.mark_safe st
      (elements (Sentence.cells (MinesweeperAI.deref st r))) same_list_mark_safe)
      as [Hb Hl].
    rewrite Hl in Hk. split; [apply Hb|simpl; lia].
  - intros (k & -> & Hk)%remove_inv.
    destruct (same_list_foldl MinesweeperAI.mark_mine st
      (elements (Sentence.cells (MinesweeperAI.deref st r))) same_list_mark_mine)
      as [Hb Hl].
    rewrite Hl in Hk. split; [apply Hb|simpl; lia].
  - intros [= <-]. split; [apply same_board_refl|done].
Qed.

Lemma check_knowledge_returns st r :
  r ∈ MinesweeperAI.knowledge st → returns (MinesweeperAI.check_knowledge st r).
Proof.
  intros Hr. unfold MinesweeperAI.check_knowledge.
  destruct (resolve_returns st r Hr) as [st1 ->]. by eexists.
Qed.

Lemma check_knowledge_shape st r st' :
  MinesweeperAI.check_knowledge st r = Ret st' →
  same_board st st' ∧
  (length (MinesweeperAI.knowledge st') ≤ length (MinesweeperAI.knowledge st))%nat.
Proof.
  unfold MinesweeperAI.check_knowledge.
  destruct (MinesweeperAI.resolve st r) as [st1| |] eqn:Hres; simpl; try done.
  intros [= <-]. apply resolve_shape in Hres as [Hb Hlen].
  destruct (same_list_compare_all r st1 (MinesweeperAI.knowledge st1)) as [Hb' Hl].
  split; [by eapply same_board_trans|]. by rewrite Hl.
Qed.

(** The list iterator never needs more rounds than the list is long. *)
Lemma check_from_returns fuel i st :
  (length (MinesweeperAI.knowledge st) ≤ fuel + i)%nat →
  returns (MinesweeperAI.check_from fuel i st).
Proof.
  revert i st. induction fuel as [|fuel IH]; intros i st Hlen; simpl.
  - destruct (MinesweeperAI.knowledge st !! i) eqn:Hi; [|by eexists].
    apply lookup_lt_Some in Hi. lia.
  - destruct (MinesweeperAI.knowledge st !! i) as [r|] eqn:Hi; [|by eexists].
    destruct (check_knowledge_returns st r) as [st1 Hst1].
    { by eapply list_elem_of_lookup_2. }
    rewrite Hst1. simpl. apply IH.
    apply check_knowledge_shape in Hst1 as [_ ?]. lia.
Qed.

Lemma check_from_shape fuel i st st' :
  MinesweeperAI.check_from fuel i st = Ret st' → same_board st st'.
Proof.
  revert i st. induction fuel as [|fuel IH]; intros i st; simpl.
  - destruct (MinesweeperAI.knowledge st !! i); [done|].
    intros [= <-]. apply same_board_refl.
  - destruct (MinesweeperAI.knowledge st !! i) as [r|]; [|intros [= <-]; apply same_board_refl].
    destruct (MinesweeperAI.check_knowledge st r) as [st1| |] eqn:Hst1; simpl; try done.
    intros Hrec. eapply same_board_trans; [|by eapply IH].
    by apply check_knowledge_shape in Hst1 as [? _].
Qed.

Lemma check_all_returns st : returns (MinesweeperAI.check_all st).
Proof. apply check_from_returns. lia. Qed.

Lemma inference_passes_returns st new :
  new ∈ MinesweeperAI.knowledge st → returns (MinesweeperAI.inference_passes st new).
Proof.
  intros Hnew. unfold MinesweeperAI.inference_passes.
  destruct (check_knowledge_returns st new Hnew) as [st1 ->]. simpl.
  destruct (check_all_returns st1) as [st2 ->]. simpl.
  apply check_all_returns.
Qed.

Lemma inference_passes_shape st new st' :
  MinesweeperAI.inference_passes st new = Ret st' → same_board st st'.
Proof.
  unfold MinesweeperAI.inference_passes.
  destruct (MinesweeperAI.check_knowledge st new) as [st1| |] eqn:H1; simpl; try done.
  destruct (MinesweeperAI.check_all st1) as [st2| |] eqn:H2; simpl; try done.
  intros H3.
  apply check_knowledge_shape in H1 as [H1 _].
  apply check_from_shape in H2, H3.
  eauto using same_board_trans.
Qed.

(** [add_knowledge] returns in every state: the sentence handed to
    [check_knowledge] is in the list, so [list.remove] finds it, and each
    pass over the list ends. *)
Lemma add_knowledge_returns st cell count :
  returns (MinesweeperAI.add_knowledge st cell count).
Proof.
  unfold MinesweeperAI.add_knowledge, MinesweeperAI.insert_new, MinesweeperAI.append.
  apply inference_passes_returns.
  unfold MinesweeperAI.propagate_all.
  rewrite (proj2 (same_list_propagate_from _ _)). simpl.
  set_solver.
Qed.

(** ** Inference is sound for the board *)

Section soundness.
Context (M : gset Cell).
Implicit Types (st : MinesweeperAI.t) (s : Sentence.t) (X : gset Cell).
Implicit Types (r new i : nat) (cell c : Cell) (count : Z).

Lemma true_deref st r :
  Forall (true_of M) (MinesweeperAI.store st) → true_of M (MinesweeperAI.deref st r).
Proof.
  intros Hst. unfold MinesweeperAI.deref.
  destruct (MinesweeperAI.store st !! r) as [s|] eqn:Hr; simpl.
  - by eapply Forall_lookup_1.
  - unfold true_of. simpl. by rewrite intersection_empty_l_L, size_empty.
Qed.

Lemma sound_mark_mine st c :
  c ∈ M → sound M st → sound M (MinesweeperAI.mark_mine st c).
Proof.
  intros Hc [Hst Hm Hs]. split; simpl; [|set_solver|done].
  apply foldl_alter_Forall; [|done]. intros s. by apply true_mark_mine.
Qed.

Lemma sound_mark_safe st c :
  c ∉ M → sound M st → sound M (MinesweeperAI.mark_safe st c).
Proof.
  intros Hc [Hst Hm Hs]. split; simpl; [|done|set_solver].
  apply foldl_alter_Forall; [|done]. intros s. by apply true_mark_safe.
Qed.

Lemma sound_mark_mines st (X : gset Cell) :
  X ⊆ M → sound M st → sound M (foldl MinesweeperAI.mark_mine st (elements X)).
Proof.
  intros HX. assert (Forall (fun c => c ∈ M) (elements X)) as Hcs.
  { apply Forall_forall. intros c Hc%elem_of_elements. auto. }
  clear HX. revert st. induction Hcs as [|c cs Hc _ IH]; intros st Hst; simpl; [done|].
  by apply IH, sound_mark_mine.
Qed.

Lemma sound_mark_safes st (X : gset Cell) :
  X ## M → sound M st → sound M (foldl MinesweeperAI.mark_safe st (elements X)).
Proof.
  intros HX. assert (Forall (fun c => c ∉ M) (elements X)) as Hcs.
  { apply Forall_forall. intros c Hc%elem_of_elements. set_solver. }
  clear HX. revert st. induction Hcs as [|c cs Hc _ IH]; intros st Hst; simpl; [done|].
  by apply IH, sound_mark_safe.
Qed.

Lemma sound_propagate st r : sound M st → sound M (MinesweeperAI.propagate st r).
Proof.
  intros Hst. unfold MinesweeperAI.propagate.
  set (st1 := match Sentence.truthy (Sentence.known_mines _) with
              | Some X => _ | None => _ end).
  assert (sound M st1) as H1.
  { subst st1. unfold Sentence.truthy, Sentence.known_mines.
    repeat case_bool_decide; try done.
    apply sound_mark_mines; [|done].
    apply true_all_mines; [|done]. apply true_deref, Hst. }
  unfold Sentence.truthy, Sentence.known_safes.
  repeat case_bool_decide; try done.
  apply sound_mark_safes; [|done].
  apply true_all_safe; [|done]. apply true_deref, H1.
Qed.

Lemma sound_propagate_from st k :
  sound M st → sound M (foldl MinesweeperAI.propagate st k).
Proof.
  revert st. induction k as [|r k IH]; intros st Hst; simpl; [done|].
  by apply IH, sound_propagate.
Qed.

Lemma sound_set_knowledge st k :
  sound M st → sound M (MinesweeperAI.set_knowledge st k).
Proof. by intros [???]. Qed.

Lemma sound_resolve st r st' :
  MinesweeperAI.resolve st r = Ret st' → sound M st → sound M st'.
Proof.
  unfold MinesweeperAI.resolve. intros Hres Hst.
  pose proof (true_deref st r (sound_store _ _ Hst)) as Hr.
  repeat case_bool_decide.
  - apply remove_inv in Hres as (k & -> & _). by apply sound_set_knowledge.
  - apply remove_inv in Hres as (k & -> & _).
    apply sound_set_knowledge, sound_mark_safes; [|done]. by apply true_all_safe.
  - apply remove_inv in Hres as (k & -> & _).
    apply sound_set_knowledge, sound_mark_mines; [|done]. by apply true_all_mines.
  - by injection Hres as <-.
Qed.

Lemma sound_subtract_at st r r2 :
  Sentence.cells (MinesweeperAI.deref st r2) ⊂ Sentence.cells (MinesweeperAI.deref st r) →
  sound M st →
  sound M (MinesweeperAI.set_store st
             (alter (fun s => Sentence.subtract s (MinesweeperAI.deref st r2)) r
                    (MinesweeperAI.store st))).
Proof.
  intros [Hsub _] [Hst Hm Hs]. split; simpl; [|done|done].
  apply Forall_alter; [done|]. intros s Hs' Htrue.
  apply true_subtract; [|done|by apply true_deref].
  unfold MinesweeperAI.deref in Hsub. by rewrite Hs' in Hsub.
Qed.

Lemma sound_compare r st r2 :
  sound M st → sound M (MinesweeperAI.compare r st r2).
Proof.
  intros Hst. unfold MinesweeperAI.compare.
  set (st1 := if bool_decide _ then _ else st).
  assert (sound M st1) as H1.
  { subst st1. case_bool_decide; [|done]. by apply sound_subtract_at. }
  case_bool_decide; [|done]. by apply sound_subtract_at.
Qed.

Lemma sound_compare_all r st k :
  sound M st → sound M (foldl (MinesweeperAI.compare r) st k).
Proof.
  revert st. induction k as [|r2 k IH]; intros st Hst; simpl; [done|].
  by apply IH, sound_compare.
Qed.

Lemma sound_check_knowledge st r st' :
  MinesweeperAI.check_knowledge st r = Ret st' → sound M st → sound M st'.
Proof.
  unfold MinesweeperAI.check_knowledge.
  destruct (MinesweeperAI.resolve st r) as [st1| |] eqn:Hres; simpl; try done.
  intros [= <-] Hst. eapply sound_compare_all, sound_resolve; eauto.
Qed.

Lemma sound_check_from fuel i st st' :
  MinesweeperAI.check_from fuel i st = Ret st' → sound M st → sound M st'.
Proof.
  revert i st. induction fuel as [|fuel IH]; intros i st; simpl.
  - destruct (MinesweeperAI.knowledge st !! i); [done|]. by intros [= <-].
  - destruct (MinesweeperAI.knowledge st !! i) as [r|]; [|by intros [= <-]].
    destruct (MinesweeperAI.check_knowledge st r) as [st1| |] eqn:Hst1; simpl; try done.
    intros Hrec Hst. eapply IH; [done|]. by eapply sound_check_knowledge.
Qed.

Lemma sound_inference_passes st new st' :
  MinesweeperAI.inference_passes st new = Ret st' → sound M st → sound M st'.
Proof.
  unfold MinesweeperAI.inference_passes.
  destruct (MinesweeperAI.check_knowledge st new) as [st1| |] eqn:H1; simpl; try done.
  destruct (MinesweeperAI.check_all st1) as [st2| |] eqn:H2; simpl; try done.
  intros H3 Hst.
  eapply sound_check_from; [exact H3|].
  eapply sound_check_from; [exact H2|].
  by eapply sound_check_knowledge.
Qed.

Lemma sound_record_move st cell :
  cell ∉ M → sound M st → sound M (MinesweeperAI.record_move st cell).
Proof.
  intros Hc [Hst Hm Hs]. unfold MinesweeperAI.record_move.
  case_bool_decide; [done|]. by apply sound_mark_safe.
Qed.

(** The sentence built from a revealed cell and its true count is true. *)
Lemma true_new_sentence st cell count :
  sound M st →
  count = Z.of_nat (size (MinesweeperAI.neighbourhood st cell ∩ M)) →
  true_of M (MinesweeperAI.new_sentence st cell count).
Proof.
  intros [Hst Hm Hs] ->. unfold MinesweeperAI.new_sentence.
  set (N := MinesweeperAI.neighbourhood st cell ∖ MinesweeperAI.safes st).
  assert (true_of M (Sentence.mk N (Z.of_nat (size (MinesweeperAI.neighbourhood st cell ∩ M)))))
    as Hnew.
  { unfold true_of. simpl. do 2 f_equal. subst N. set_solver. }
  revert Hnew. generalize (Sentence.mk N (Z.of_nat (size (MinesweeperAI.neighbourhood st cell ∩ M)))).
  induction (elements N) as [|c cs IH]; intros s Htrue; simpl; [done|].
  apply IH. case_bool_decide; [|done]. apply true_mark_mine; [set_solver|done].
Qed.

Lemma sound_append st s :
  true_of M s → sound M st → sound M (MinesweeperAI.append st s).1.
Proof.
  intros Hs [Hst Hm Hsf]. split; simpl; [|done|done].
  apply Forall_app. split; [done|]. by apply Forall_singleton.
Qed.

Lemma neighbourhood_record_move st cell c :
  MinesweeperAI.neighbourhood (MinesweeperAI.record_move st cell) c
  = MinesweeperAI.neighbourhood st c.
Proof.
  unfold MinesweeperAI.record_move. by case_bool_decide.
Qed.

Lemma sound_add_knowledge st cell count st' :
  cell ∉ M →
  count = Z.of_nat (size (MinesweeperAI.neighbourhood st cell ∩ M)) →
  MinesweeperAI.add_knowledge st cell count = Ret st' →
  sound M st → sound M st'.
Proof.
  intros Hcell Hcount. unfold MinesweeperAI.add_knowledge, MinesweeperAI.insert_new.
  destruct (MinesweeperAI.append _ _) as [st2 new] eqn:Happ.
  intros Hpass Hst.
  eapply sound_inference_passes; [exact Hpass|].
  apply sound_propagate_from.
  change st2 with (st2, new).1. rewrite <- Happ.
  pose proof (sound_record_move st cell Hcell Hst) as Hrec.
  apply sound_append; [|done].
  apply true_new_sentence; [done|].
  by rewrite neighbourhood_record_move.
Qed.

Lemma same_board_add_knowledge st cell count st' :
  MinesweeperAI.add_knowledge st cell count = Ret st' → same_board st st'.
Proof.
  unfold MinesweeperAI.add_knowledge, MinesweeperAI.insert_new, MinesweeperAI.append.
  intros Hpass%inference_passes_shape.
  eapply same_board_trans; [|exact Hpass].
  eapply same_board_trans;
    [|apply (proj1 (same_list_propagate_from _ _))].
  unfold MinesweeperAI.record_move. case_bool_decide; by split.
Qed.

Lemma sound_step st o st' :
  consistent M (MinesweeperAI.height st) (MinesweeperAI.width st) o →
  step st o = Ret st' → sound M st → sound M st' ∧ same_board st st'.
Proof.
  destruct o as [cell count|cell|cell]; simpl.
  - intros [Hc Hk] Hstep Hst. split.
    + by eapply sound_add_knowledge.
    + by eapply same_board_add_knowledge.
  - intros Hc [= <-] Hst. split; [by apply sound_mark_mine|by split].
  - intros Hc [= <-] Hst. split; [by apply sound_mark_safe|by split].
Qed.

Lemma step_returns st o : returns (step st o).
Proof.
  destruct o; simpl; [apply add_knowledge_returns|by eexists|by eexists].
Qed.

Lemma sound_init height width : sound M (MinesweeperAI.init height width).
Proof. split; simpl; [done|set_solver|set_solver]. Qed.

(** Every consistent sequence of calls runs to the end and keeps the player's
    knowledge right. *)
Lemma sound_run st os :
  Forall (consistent M (MinesweeperAI.height st) (MinesweeperAI.width st)) os →
  sound M st →
  ∃ st', run st os = Ret st' ∧ sound M st'.
Proof.
  revert st. induction os as [|o os IH]; intros st Hos Hst; simpl.
  - by exists st.
  - apply Forall_cons in Hos as [Ho Hos].
    destruct (step_returns st o) as [st1 Hst1]. rewrite Hst1. simpl.
    destruct (sound_step st o st1 Ho Hst1 Hst) as [Hsound [Hh Hw]].
    apply IH; [|done]. by rewrite Hh, Hw.
Qed.

End soundness.

(** * Invariants of play against a fixed board *)

Lemma sound_prefix (M : gset Cell) (height width : Z) (os os' : list op) :
  Forall (consistent M height width) os → os' `prefix_of` os →
  ∃ st, run (MinesweeperAI.init height width) os' = Ret st ∧ sound M st.
Proof.
  intros Hos [k ->]. apply Forall_app in Hos as [Hos' _].
  apply sound_run; [done|apply sound_init].
Qed.

(** C3. Along every sequence of turns whose cells and counts agree with one
    board, the run reaches each point between two turns, and there every
    sentence in the knowledge base has [0 ≤ count ≤ |cells|]. *)
Theorem statement_count_invariant
    (M : gset Cell) (height width : Z) (ts ts' : list (Cell * Z)) :
  Forall (consistent M height width) (turns ts) →
  ts' `prefix_of` ts →
  ∃ st, run (MinesweeperAI.init height width) (turns ts') = Ret st ∧
        Forall count_in_range (MinesweeperAI.active st).
Proof.
  intros Hts Hpre.
  destruct (sound_prefix M height width (turns ts) (turns ts')) as (st & Hrun & Hst);
    [done|destruct Hpre as [k ->]; exists (turns k); apply fmap_app|].
  exists st. split; [done|].
  unfold MinesweeperAI.active. apply Forall_fmap, Forall_forall. intros r _. simpl.
  eapply true_in_range, true_deref, sound_store, Hst.
Qed.

(** C4. Along every sequence of [add_knowledge], [mark_mine] and [mark_safe]
    calls that agree with one board, starting from a new player, the run
    reaches the point after each call, and there no cell is both in [safes]
    and in [mines]. *)
Theorem safes_mines_disjoint
    (M : gset Cell) (height width : Z) (os os' : list op) :
  Forall (consistent M height width) os →
  os' `prefix_of` os →
  ∃ st, run (MinesweeperAI.init height width) os' = Ret st ∧
        MinesweeperAI.safes st ∩ MinesweeperAI.mines st = ∅.
Proof.
  intros Hos Hpre.
  destruct (sound_prefix M height width os os') as (st & Hrun & [_ Hm Hs]); [done..|].
  exists st. split; [done|]. set_solver.
Qed.

(** * The sentence built by [add_knowledge] *)

Lemma elem_of_around (height width : Z) (cell c : Cell) :
  c ∈ MinesweeperAI.around height width cell ↔
  c ≠ cell ∧ MinesweeperAI.in_bounds height width c ∧
  cell.1 - 1 ≤ c.1 ≤ cell.1 + 1 ∧ cell.2 - 1 ≤ c.2 ≤ cell.2 + 1.
Proof.
  unfold MinesweeperAI.around. rewrite list_elem_of_bind. split.
  - intros (i & Hc & Hi). apply list_elem_of_bind in Hc as (j & Hc & Hj).
    apply elem_of_seqZ in Hi, Hj.
    repeat case_bool_decide; try by apply elem_of_nil in Hc.
    apply list_elem_of_singleton in Hc as ->. simpl. split; [done|]. split; [done|lia].
  - intros (Hne & Hb & Hi & Hj). exists c.1. split; [|apply elem_of_seqZ; lia].
    apply list_elem_of_bind. exists c.2. split; [|apply elem_of_seqZ; lia].
    rewrite <- surjective_pairing.
    rewrite bool_decide_false, bool_decide_true by done. by apply list_elem_of_singleton.
Qed.

Lemma cell_not_in_neighbourhood (st : MinesweeperAI.t) (cell : Cell) :
  cell ∉ MinesweeperAI.neighbourhood st cell.
Proof.
  unfold MinesweeperAI.neighbourhood. rewrite elem_of_list_to_set, elem_of_around.
  by intros [? _].
Qed.

(** [for cell in NewSentence.cells: if cell in self.mines: mark_mine(cell)] *)
Lemma fold_known_mines (mines : gset Cell) (cs : list Cell) (s : Sentence.t) :
  NoDup cs → (∀ c, c ∈ cs → c ∈ Sentence.cells s) →
  foldl (fun s c => if bool_decide (c ∈ mines) then Sentence.mark_mine s c else s) s cs
  = Sentence.mk (Sentence.cells s ∖ (list_to_set cs ∩ mines))
                (Sentence.count s - Z.of_nat (size (list_to_set cs ∩ mines : gset Cell))).
Proof.
  intros Hnd. revert s. induction Hnd as [|c cs Hc Hnd IH]; intros s Hin; simpl.
  - destruct s as [X k]; simpl. f_equal; [set_solver|].
    rewrite intersection_empty_l_L, size_empty. lia.
  - case_bool_decide as Hm.
    + rewrite IH.
      2:{ intros c' Hc'. unfold Sentence.mark_mine.
          rewrite bool_decide_true by set_solver. simpl.
          apply elem_of_difference. split; [set_solver|].
          intros ->%elem_of_singleton. done. }
      unfold Sentence.mark_mine. rewrite bool_decide_true by set_solver. simpl.
      f_equal; [set_solver|].
      assert (({[c]} ∪ list_to_set cs) ∩ mines
              = {[c]} ∪ (list_to_set cs ∩ mines) :> gset Cell) as -> by set_solver.
      rewrite (size_union (C:=gset Cell) {[c]} (list_to_set cs ∩ mines)) by set_solver.
      rewrite size_singleton. lia.
    + rewrite IH by set_solver. f_equal; [set_solver|].
      by assert (({[c]} ∪ list_to_set cs) ∩ mines
                 = list_to_set cs ∩ mines :> gset Cell) as -> by set_solver.
Qed.

Lemma new_sentence_eq (st : MinesweeperAI.t) (cell : Cell) (count : Z) :
  let N := MinesweeperAI.neighbourhood st cell ∖ MinesweeperAI.safes st in
  MinesweeperAI.new_sentence st cell count
  = Sentence.mk (N ∖ MinesweeperAI.mines st)
                (count - Z.of_nat (size (N ∩ MinesweeperAI.mines st))).
Proof.
  intros N. unfold MinesweeperAI.new_sentence. fold N.
  rewrite fold_known_mines; simpl.
  - rewrite list_to_set_elements_L. f_equal. set_solver.
  - apply NoDup_elements.
  - intros c. by rewrite elem_of_elements.
Qed.

Lemma record_move_facts (st : MinesweeperAI.t) (cell : Cell) :
  let st1 := MinesweeperAI.record_move st cell in
  MinesweeperAI.mines st1 = MinesweeperAI.mines st ∧
  MinesweeperAI.safes st1 = {[cell]} ∪ MinesweeperAI.safes st ∧
  MinesweeperAI.knowledge st1 = MinesweeperAI.knowledge st ∧
  MinesweeperAI.moves_made st1 = {[cell]} ∪ MinesweeperAI.moves_made st.
Proof.
  unfold MinesweeperAI.record_move. case_bool_decide as Hc; simpl in *; [|done].
  repeat split; try done. set_solver.
Qed.

(** C7, as amended.  The sentence that [add_knowledge] appends to the
    knowledge base has as cells the neighbours of the revealed cell that are
    neither in [safes] nor in [mines], and as count the given count less the
    number of neighbours in [mines] that are not in [safes]: a mine is taken
    off the count only where it is taken out of the cells.  In a state in
    which no cell is both a confirmed safe cell and a confirmed mine that is
    the number of neighbours in [mines]. *)
Theorem new_statement_construction
    (st : MinesweeperAI.t) (cell : Cell) (count : Z) :
  let N := MinesweeperAI.neighbourhood st cell in
  let st' := (MinesweeperAI.insert_new st cell count).1 in
  let new := (MinesweeperAI.insert_new st cell count).2 in
  MinesweeperAI.knowledge st' = MinesweeperAI.knowledge st ++ [new] ∧
  MinesweeperAI.store st' !! new
  = Some (Sentence.mk (N ∖ MinesweeperAI.safes st ∖ MinesweeperAI.mines st)
            (count - Z.of_nat (size (N ∩ MinesweeperAI.mines st
                                       ∖ MinesweeperAI.safes st)))) ∧
  (MinesweeperAI.safes st ∩ MinesweeperAI.mines st = ∅ →
   N ∩ MinesweeperAI.mines st ∖ MinesweeperAI.safes st = N ∩ MinesweeperAI.mines st).
Proof.
  intros N st' new. subst st' new.
  unfold MinesweeperAI.insert_new, MinesweeperAI.append. simpl.
  destruct (record_move_facts st cell) as (Hm & Hs & Hk & _).
  split; [by rewrite Hk|]. split; [|set_solver].
  rewrite lookup_app_r, Nat.sub_diag by done. simpl. f_equal.
  rewrite new_sentence_eq. rewrite neighbourhood_record_move, Hm, Hs.
  fold N. pose proof (cell_not_in_neighbourhood st cell) as Hcell. fold N in Hcell.
  f_equal; [set_solver|].
  do 3 f_equal. set_solver.
Qed.

(** * Python floats *)























Lemma leb_not_ltb (x y : Float.t) : Float.leb x y = true → Float.ltb y x = false.
Proof.
  destruct x as [a|[]|], y as [b|[]|]; simpl; try done.
  rewrite Z.leb_le, Z.ltb_ge. lia.
Qed.


(** The arithmetic of [Float] against the Standard Library's specification
    of IEEE 754, at binary64, on a few inputs: quotients that are not exact,
    a quotient with a count of 54 bits, ties among the subnormal values, the
    largest quotient that is a float and the first that is not; sums that
    round, that reach an infinity, and that give [nan]; comparisons. *)
Example float_matches_ieee :
  Forall (fun ab => Float.to_spec (Float.quotient ab.1 ab.2)
                    = SFdiv 53 1024 (Float.int_to_spec ab.1) (Float.int_to_spec ab.2))
    [(1, 3); (2, 3); (1, 10); (-1, 3); (2 ^ 53 + 1, 1); (2 ^ 53 + 3, 7);
     (1, 2 ^ 1075); (3, 2 ^ 1075); (5, 3 * 2 ^ 1074); (7, 10 ^ 310);
     (2 ^ 1024 - 2 ^ 970 - 1, 1); (2 ^ 1024 - 2 ^ 970, 1); (10 ^ 400, 1)] ∧
  Forall (fun xy => Float.to_spec (Float.add xy.1 xy.2)
                    = SFadd 53 1024 (Float.to_spec xy.1) (Float.to_spec xy.2)
                    ∧ Float.ltb xy.1 xy.2
                      = SFltb (Float.to_spec xy.1) (Float.to_spec xy.2)
                    ∧ Float.leb xy.1 xy.2
                      = SFleb (Float.to_spec xy.1) (Float.to_spec xy.2))
    [(Float.quotient 1 10, Float.quotient 2 10);
     (Float.quotient 1 3, Float.quotient 1 3);
     (Float.quotient 1 1, Float.quotient (-1) 3);
     (Float.quotient (2 ^ 53) 1, Float.quotient 1 1);
     (Float.quotient (2 ^ 53) 1, Float.quotient 3 1);
     (Float.quotient 1 (10 ^ 310), Float.quotient 3 (10 ^ 310));
     (Float.quotient (2 ^ 1023) 1, Float.quotient (2 ^ 1023) 1);
     (Float.quotient (- 2 ^ 1023) 1, Float.quotient (- 2 ^ 1023) 1);
     (Float.Inf false, Float.quotient 1 3);
     (Float.Inf false, Float.Inf true);
     (Float.NaN, Float.quotient 1 3)].
Proof.
  split.
  - repeat first [apply List.Forall_nil | apply List.Forall_cons];
      vm_compute; reflexivity.
  - repeat first [apply List.Forall_nil | apply List.Forall_cons];
      (split; [vm_compute; reflexivity|split; vm_compute; reflexivity]).
Qed.

(** * The score table of [make_random_move] *)


















(** With an empty table and no sentence, [make_random_move] scans the board. *)
Lemma make_random_move_fresh_empty (st : MinesweeperAI.t) :
  MinesweeperAI.active st = [] →
  Cell_stat.make_random_move st [] = (Ret (MinesweeperAI.first_free st), []).
Proof. intros Hst. unfold Cell_stat.make_random_move. by rewrite Hst. Qed.


(** * The board set up by [Minesweeper.__init__] *)

Lemma index_Ret {A : Type} (l : list A) (i : Z) (x : A) :
  0 ≤ i → l !! Z.to_nat i = Some x → Minesweeper.index l i = Ret x.
Proof.
  intros Hi Hx. unfold Minesweeper.index. cbv zeta.
  rewrite (bool_decide_false (i < 0)) by lia.
  apply lookup_lt_Some in Hx as Hlt.
  rewrite bool_decide_true by lia. by rewrite Hx.
Qed.

Lemma assign_Ret {A : Type} (l : list A) (i : Z) (x : A) :
  0 ≤ i < Z.of_nat (length l) →
  Minesweeper.assign l i x = Ret (<[Z.to_nat i := x]> l).
Proof.
  intros Hi. unfold Minesweeper.assign. cbv zeta.
  rewrite (bool_decide_false (i < 0)) by lia. by rewrite bool_decide_true by lia.
Qed.

Lemma board_ok_empty (height width : Z) :
  board_ok (Minesweeper.mk height width ∅ (Minesweeper.empty_board height width) ∅).
Proof.
  unfold Minesweeper.empty_board. split; simpl.
  - by rewrite length_replicate.
  - apply Forall_replicate. by rewrite length_replicate.
  - intros i j row b [-> _]%lookup_replicate [-> _]%lookup_replicate.
    by rewrite bool_decide_false by set_solver.
  - set_solver.
Qed.

(** One round of the placement loop on a free cell. *)
Lemma board_ok_place_one (g : Minesweeper.t) (i j : Z) row :
  board_ok g → drawn_in (Minesweeper.height g) (Minesweeper.width g) (i, j) →
  Minesweeper.board g !! Z.to_nat i = Some row →
  board_ok (Minesweeper.mk (Minesweeper.height g) (Minesweeper.width g)
              ({[(i, j)]} ∪ Minesweeper.mines g)
              (<[Z.to_nat i := <[Z.to_nat j := true]> row]> (Minesweeper.board g))
              (Minesweeper.mines_found g)).
Proof.
  intros [Hrows Hcols Hcells Hmines] [Hi Hj] Hrow. simpl in Hi, Hj.
  pose proof (Forall_lookup_1 _ _ _ _ Hcols Hrow) as Hlen. simpl in Hlen.
  split; simpl.
  - by rewrite length_insert.
  - apply Forall_insert; [done|]. by rewrite length_insert.
  - intros i' j' row' b Hrow' Hb.
    destruct (decide (i' = Z.to_nat i)) as [->|Hne].
    + rewrite list_lookup_insert_eq in Hrow' by lia.
      injection Hrow' as <-.
      destruct (decide (j' = Z.to_nat j)) as [->|Hne'].
      * rewrite list_lookup_insert_eq in Hb by lia.
        injection Hb as <-. rewrite !Z2Nat.id by lia.
        by rewrite bool_decide_true by set_solver.
      * rewrite list_lookup_insert_ne in Hb by done.
        rewrite (Hcells _ _ _ _ Hrow Hb).
        apply bool_decide_ext. rewrite elem_of_union, elem_of_singleton.
        split; [by right|]. intros [[= ? ?]|?]; [lia|done].
    + rewrite list_lookup_insert_ne in Hrow' by done.
      rewrite (Hcells _ _ _ _ Hrow' Hb).
      apply bool_decide_ext. rewrite elem_of_union, elem_of_singleton.
      split; [by right|]. intros [[= ? ?]|?]; [lia|done].
  - intros c [->%elem_of_singleton|Hc]%elem_of_union; [by split|].
    by apply Hmines.
Qed.

Lemma place_ok (draws : list Cell) (g g' : Minesweeper.t) (n : Z) :
  Forall (drawn_in (Minesweeper.height g) (Minesweeper.width g)) draws →
  Minesweeper.place draws g n = Ret g' →
  board_ok g →
  board_ok g' ∧ Z.of_nat (size (Minesweeper.mines g')) = n ∧
  Minesweeper.height g' = Minesweeper.height g ∧
  Minesweeper.width g' = Minesweeper.width g.
Proof.
  intros Hdraws. revert g Hdraws.
  induction draws as [|[i j] draws IH]; intros g Hdraws; simpl.
  - case_bool_decide; [by intros [= <-]|]. by case_bool_decide.
  - case_bool_decide as Hn; [by intros [= <-]|].
    case_bool_decide; [done|].
    apply Forall_cons in Hdraws as [Hd Hdraws]. pose proof Hd as [Hi Hj].
    simpl in Hi, Hj. intros Hplace Hok. pose proof Hok as [Hrows Hcols Hcells Hmines].
    destruct (lookup_lt_is_Some_2 (Minesweeper.board g) (Z.to_nat i)) as [row Hrow];
      [lia|].
    pose proof (Forall_lookup_1 _ _ _ _ Hcols Hrow) as Hlen. simpl in Hlen.
    destruct (lookup_lt_is_Some_2 row (Z.to_nat j)) as [b Hb]; [lia|].
    rewrite (index_Ret _ _ _ (proj1 Hi) Hrow) in Hplace. simpl in Hplace.
    rewrite (index_Ret _ _ _ (proj1 Hj) Hb) in Hplace. simpl in Hplace.
    destruct b; [by apply IH|].
    rewrite assign_Ret in Hplace by lia. simpl in Hplace.
    rewrite assign_Ret in Hplace by lia. simpl in Hplace.
    apply IH in Hplace; [done|done|].
    by apply board_ok_place_one.
Qed.

Lemma is_mine_ok (g : Minesweeper.t) (c : Cell) :
  board_ok g → Minesweeper.in_bounds g c →
  Minesweeper.is_mine g c = Ret (bool_decide (c ∈ Minesweeper.mines g)).
Proof.
  intros [Hrows Hcols Hcells Hmines] [Hi Hj]. unfold Minesweeper.is_mine.
  destruct (lookup_lt_is_Some_2 (Minesweeper.board g) (Z.to_nat c.1)) as [row Hrow];
    [lia|].
  pose proof (Forall_lookup_1 _ _ _ _ Hcols Hrow) as Hlen. simpl in Hlen.
  destruct (lookup_lt_is_Some_2 row (Z.to_nat c.2)) as [b Hb]; [lia|].
  rewrite (index_Ret _ _ _ (proj1 Hi) Hrow). simpl.
  rewrite (index_Ret _ _ _ (proj1 Hj) Hb). f_equal.
  rewrite (Hcells _ _ _ _ Hrow Hb), !Z2Nat.id by lia.
  by rewrite <- surjective_pairing.
Qed.

Lemma after_calls_same (g : Minesweeper.t) (qs : list query) : after_calls g qs = g.
Proof.
  unfold after_calls. induction qs as [|q qs IH]; simpl; [done|].
  by destruct q.
Qed.

Lemma elem_of_grid_cells (height width : Z) (c : Cell) :
  c ∈ grid_cells height width ↔ drawn_in height width c.
Proof.
  unfold grid_cells, drawn_in. rewrite list_elem_of_bind. split.
  - intros (i & (j & ->%list_elem_of_singleton & Hj%elem_of_seqZ)%list_elem_of_bind
              & Hi%elem_of_seqZ). simpl. lia.
  - intros [Hi Hj]. exists c.1. split; [|apply elem_of_seqZ; lia].
    apply list_elem_of_bind. exists c.2. split; [|apply elem_of_seqZ; lia].
    rewrite <- surjective_pairing. by apply list_elem_of_singleton.
Qed.

Lemma NoDup_grid_cells (height width : Z) : NoDup (grid_cells height width).
Proof.
  unfold grid_cells. apply NoDup_bind; [| |apply NoDup_seqZ].
  - intros i1 i2 c _ _
      (j1 & ->%list_elem_of_singleton & _)%list_elem_of_bind
      (j2 & [= -> _]%list_elem_of_singleton & _)%list_elem_of_bind. done.
  - intros i _. apply NoDup_bind; [| |apply NoDup_seqZ].
    + intros j1 j2 c _ _ ->%list_elem_of_singleton [= ->]%list_elem_of_singleton. done.
    + intros j _. apply NoDup_singleton.
Qed.

Lemma length_bind_const {A B : Type} (f : A → list B) (k : nat) (l : list A) :
  (∀ x, length (f x) = k) → length (l ≫= f) = (length l * k)%nat.
Proof.
  intros Hf. induction l as [|x l IH]; [done|].
  rewrite bind_cons, length_app, Hf, IH. simpl. lia.
Qed.

Lemma length_grid_cells (height width : Z) :
  length (grid_cells height width) = (Z.to_nat height * Z.to_nat width)%nat.
Proof.
  unfold grid_cells.
  rewrite (length_bind_const _ (Z.to_nat width)), length_seqZ; [done|].
  intros i. rewrite (length_bind_const _ 1%nat), length_seqZ; [lia|done].
Qed.

(** Draws that hit only free cells end the placement loop. *)
Lemma place_returns (draws : list Cell) (g : Minesweeper.t) (n : Z) :
  board_ok g → NoDup draws →
  Forall (drawn_in (Minesweeper.height g) (Minesweeper.width g)) draws →
  (∀ d, d ∈ draws → d ∉ Minesweeper.mines g) →
  Z.of_nat (size (Minesweeper.mines g) + length draws) = n →
  returns (Minesweeper.place draws g n).
Proof.
  intros Hok Hnd. revert g Hok.
  induction Hnd as [|[i j] draws Hd Hnd IH]; intros g Hok Hdraws Hfree Hn; simpl.
  - rewrite bool_decide_true by (simpl in Hn; lia). by eexists.
  - apply Forall_cons in Hdraws as [[Hi Hj] Hdraws]. simpl in Hi, Hj, Hn.
    rewrite bool_decide_false by lia. rewrite bool_decide_false by lia.
    pose proof Hok as [Hrows Hcols Hcells Hmines].
    destruct (lookup_lt_is_Some_2 (Minesweeper.board g) (Z.to_nat i)) as [row Hrow];
      [lia|].
    pose proof (Forall_lookup_1 _ _ _ _ Hcols Hrow) as Hlen. simpl in Hlen.
    destruct (lookup_lt_is_Some_2 row (Z.to_nat j)) as [b Hb]; [lia|].
    rewrite (index_Ret _ _ _ (proj1 Hi) Hrow). simpl.
    rewrite (index_Ret _ _ _ (proj1 Hj) Hb). simpl.
    assert (b = false) as ->.
    { rewrite (Hcells _ _ _ _ Hrow Hb), !Z2Nat.id by lia.
      apply bool_decide_false, Hfree. by left. }
    rewrite !assign_Ret by lia. simpl. rewrite assign_Ret by lia. simpl.
    apply IH; simpl.
    + by apply board_ok_place_one.
    + done.
    + intros d Hd' [->%elem_of_singleton|Hm]%elem_of_union; [done|].
      eapply Hfree; [by right|done].
    + rewrite (size_union (C:=gset Cell) {[(i, j)]} (Minesweeper.mines g)).
      * rewrite size_singleton. lia.
      * apply disjoint_singleton_l, Hfree. by left.
Qed.

Lemma init_returns (height width n : Z) :
  0 ≤ height → 0 ≤ width → 0 ≤ n ≤ height * width →
  ∃ draws, Forall (drawn_in height width) draws ∧
           returns (Minesweeper.init height width n draws).
Proof.
  intros Hh Hw Hn. exists (take (Z.to_nat n) (grid_cells height width)).
  assert (Forall (drawn_in height width) (take (Z.to_nat n) (grid_cells height width)))
    as Hin.
  { apply Forall_take, Forall_forall. intros c. by rewrite elem_of_grid_cells. }
  split; [done|]. unfold Minesweeper.init. apply place_returns; cbn [Minesweeper.mines Minesweeper.height Minesweeper.width].
  - apply board_ok_empty.
  - eapply sublist_NoDup; [apply NoDup_grid_cells|apply sublist_take].
  - done.
  - set_solver.
  - rewrite size_empty, length_take_le; [lia|].
    rewrite length_grid_cells, <- Z2Nat.inj_mul by lia. lia.
Qed.

(** C10. With [0 ≤ mines ≤ height * width], [__init__] returns for suitable
    draws of [randrange]; and whenever it returns, [is_mine] is true at a cell
    of the grid exactly when the cell is in the mine set, the mine set has
    exactly the requested number of cells, all of them on the grid, and no
    later method call changes the mine set or the grid. *)
Theorem init_board (height width n : Z) :
  0 ≤ height → 0 ≤ width → 0 ≤ n ≤ height * width →
  (∃ draws, Forall (drawn_in height width) draws ∧
            returns (Minesweeper.init height width n draws)) ∧
  ∀ draws g,
    Forall (drawn_in height width) draws →
    Minesweeper.init height width n draws = Ret g →
    (∀ c, drawn_in height width c →
          Minesweeper.is_mine g c = Ret (bool_decide (c ∈ Minesweeper.mines g))) ∧
    Z.of_nat (size (Minesweeper.mines g)) = n ∧
    (∀ c, c ∈ Minesweeper.mines g → drawn_in height width c) ∧
    (∀ qs, Minesweeper.mines (after_calls g qs) = Minesweeper.mines g ∧
           Minesweeper.board (after_calls g qs) = Minesweeper.board g).
Proof.
  intros Hh Hw Hn. split; [by apply init_returns|].
  intros draws g Hdraws Hinit. unfold Minesweeper.init in Hinit.
  apply place_ok in Hinit as (Hok & Hsize & Hhg & Hwg);
    [|done|apply board_ok_empty]. simpl in Hhg, Hwg.
  assert (∀ c, drawn_in height width c ↔ Minesweeper.in_bounds g c) as Hb.
  { intros c. unfold drawn_in, Minesweeper.in_bounds. by rewrite Hhg, Hwg. }
  split; [|split; [done|split]].
  - intros c Hc. apply is_mine_ok; [done|by apply Hb].
  - intros c Hc. by apply Hb, (ok_mines _ Hok).
  - intros qs. by rewrite after_calls_same.
Qed.

(** * Counts reported by the board agree with it *)

Lemma elem_of_square (cell c : Cell) :
  c ∈ Minesweeper.square cell ↔
  cell.1 - 1 ≤ c.1 ≤ cell.1 + 1 ∧ cell.2 - 1 ≤ c.2 ≤ cell.2 + 1.
Proof.
  unfold Minesweeper.square. rewrite list_elem_of_bind. split.
  - intros (i & (j & ->%list_elem_of_singleton & Hj%elem_of_seqZ)%list_elem_of_bind
              & Hi%elem_of_seqZ). simpl. lia.
  - intros [Hi Hj]. exists c.1. split; [|apply elem_of_seqZ; lia].
    apply list_elem_of_bind. exists c.2. split; [|apply elem_of_seqZ; lia].
    rewrite <- surjective_pairing. by apply list_elem_of_singleton.
Qed.

Lemma NoDup_square (cell : Cell) : NoDup (Minesweeper.square cell).
Proof.
  unfold Minesweeper.square. apply NoDup_bind; [| |apply NoDup_seqZ].
  - intros i1 i2 c _ _
      (j1 & ->%list_elem_of_singleton & _)%list_elem_of_bind
      (j2 & [= -> _]%list_elem_of_singleton & _)%list_elem_of_bind. done.
  - intros i _. apply NoDup_bind; [| |apply NoDup_seqZ].
    + intros j1 j2 c _ _ ->%list_elem_of_singleton [= ->]%list_elem_of_singleton. done.
    + intros j _. apply NoDup_singleton.
Qed.

Lemma count_cell_ok (g : Minesweeper.t) (cell c : Cell) (k : Z) :
  board_ok g →
  Minesweeper.count_cell g cell (Ret k) c
  = Ret (if decide (counted g cell c) then k + 1 else k).
Proof.
  intros Hok. unfold Minesweeper.count_cell, counted. simpl.
  case_bool_decide as Hc.
  { rewrite decide_False; [done|]. by intros [? _]. }
  case_bool_decide as Hb.
  - rewrite (is_mine_ok g c Hok Hb). simpl. case_bool_decide as Hm.
    + by rewrite decide_True.
    + rewrite decide_False; [done|]. by intros (_ & _ & ?).
  - rewrite decide_False; [done|]. by intros (_ & ? & _).
Qed.

Lemma nearby_mines_from (g : Minesweeper.t) (cell : Cell) (l : list Cell) (k : Z) :
  board_ok g →
  foldl (Minesweeper.count_cell g cell) (Ret k) l
  = Ret (k + Z.of_nat (length (filter (counted g cell) l))).
Proof.
  intros Hok. revert k. induction l as [|c l IH]; intros k; cbn [foldl].
  - f_equal. simpl. lia.
  - rewrite count_cell_ok, IH, filter_cons by done. f_equal.
    destruct (decide (counted g cell c)); simpl; lia.
Qed.

(** On a well-formed board [nearby_mines] returns the number of mines in the
    neighbourhood that the player computes for the same cell. *)
Lemma nearby_mines_count (g : Minesweeper.t) (cell : Cell) :
  board_ok g →
  Minesweeper.nearby_mines g cell
  = Ret (Z.of_nat (size (list_to_set
           (MinesweeperAI.around (Minesweeper.height g) (Minesweeper.width g) cell)
         ∩ Minesweeper.mines g))).
Proof.
  intros Hok. unfold Minesweeper.nearby_mines.
  change (mret 0) with (Ret (A:=Z) 0). rewrite nearby_mines_from by done.
  f_equal. rewrite Z.add_0_l. f_equal.
  rewrite <- (size_list_to_set (C:=gset Cell))
    by apply NoDup_filter, NoDup_square.
  f_equal. apply set_eq. intros c.
  rewrite elem_of_list_to_set, list_elem_of_filter, elem_of_square.
  rewrite elem_of_intersection, elem_of_list_to_set, elem_of_around.
  unfold counted, Minesweeper.in_bounds, MinesweeperAI.in_bounds. naive_solver.
Qed.

(** A reveal as the game makes it: a grid cell that holds no mine, with the
    count that [nearby_mines] returns, is a consistent turn. *)
Lemma game_turn_consistent (g : Minesweeper.t) (cell : Cell) (k : Z) :
  board_ok g → Minesweeper.in_bounds g cell →
  Minesweeper.is_mine g cell = Ret false →
  Minesweeper.nearby_mines g cell = Ret k →
  consistent (Minesweeper.mines g) (Minesweeper.height g) (Minesweeper.width g)
             (AddKnowledge cell k).
Proof.
  intros Hok Hb Hmine Hk. simpl. split.
  - rewrite (is_mine_ok g cell Hok Hb) in Hmine.
    injection Hmine as Hmine. by apply bool_decide_eq_false in Hmine.
  - rewrite (nearby_mines_count g cell Hok) in Hk. by injection Hk.
Qed.

(** Every board that [__init__] returns is well formed. *)
Lemma init_board_ok (height width n : Z) (draws : list Cell) (g : Minesweeper.t) :
  Forall (drawn_in height width) draws →
  Minesweeper.init height width n draws = Ret g → board_ok g.
Proof.
  intros Hdraws Hinit. unfold Minesweeper.init in Hinit.
  by apply place_ok in Hinit as (Hok & _); [|done|apply board_ok_empty].
Qed.

(** * Games played move by move *)

(** C1. On the board [board23] the turns [game23] agree with the board.  When
    the passes of the third turn start, the sentences [{(0,1),(0,2)} = 1] and
    [{(0,0),(0,1),(0,2)} = 2] are both in the knowledge base.  The first
    [check_knowledge] turns the larger one into [{(0,0)} = 1]; both passes
    over the list then step over it, and [add_knowledge] returns with that
    sentence still in the list and with [(0,0)] not among the mines. *)
Theorem subset_derivation_left_unresolved :
  Forall (consistent board23 2 3) (turns game23) ∧
  (fun p => MinesweeperAI.active p.1) <$> third_turn23
  = Ret [Sentence.mk {[(0, 1); (0, 2)]} 1; Sentence.mk {[(0, 0); (0, 1)]} 1;
         Sentence.mk {[(0, 0); (0, 1); (0, 2)]} 2] ∧
  (p ← third_turn23; MinesweeperAI.active <$> MinesweeperAI.check_knowledge p.1 p.2)
  = Ret [Sentence.mk {[(0, 1); (0, 2)]} 1; Sentence.mk {[(0, 1)]} 0;
         Sentence.mk {[(0, 0)]} 1] ∧
  (p ← third_turn23; MinesweeperAI.inference_passes p.1 p.2)
  = run (MinesweeperAI.init 2 3) (turns game23) ∧
  MinesweeperAI.active <$> run (MinesweeperAI.init 2 3) (turns game23)
  = Ret [Sentence.mk {[(0, 0)]} 1] ∧
  MinesweeperAI.mines <$> run (MinesweeperAI.init 2 3) (turns game23)
  = Ret {[(0, 2)]}.
Proof.
  split; [agrees_with_board|].
  split; [vm_compute; reflexivity|].
  split; [vm_compute; reflexivity|].
  split; [vm_compute; reflexivity|].
  split; vm_compute; reflexivity.
Qed.

(** With the two sentences alone in the knowledge base, in either order and
    whichever of them is handed to the first [check_knowledge], the larger one
    becomes [{3} = 1] and the passes mark cell 3 as a mine. *)
Lemma subset_derivation_isolated :
  Forall (fun k => Forall (fun new =>
      (fun st => MinesweeperAI.deref st 0) <$> MinesweeperAI.check_knowledge (pair_kb k) new
      = Ret (Sentence.mk {[(0, 3)]} 1) ∧
      MinesweeperAI.mines <$> MinesweeperAI.inference_passes (pair_kb k) new
      = Ret {[(0, 3)]}) [0; 1]%nat) [[0; 1]; [1; 0]]%nat.
Proof.
  repeat first [apply List.Forall_nil | apply List.Forall_cons];
    (split; vm_compute; reflexivity).
Qed.

(** C6. The turns [game17] agree with the board [board17]; after them the
    knowledge base holds one sentence, with no cells, and [make_random_move]
    raises [ZeroDivisionError]. *)
Theorem make_random_move_divides_by_zero :
  Forall (consistent board17 1 7) (turns game17) ∧
  MinesweeperAI.active <$> run (MinesweeperAI.init 1 7) (turns game17)
  = Ret [Sentence.mk ∅ 0] ∧
  (fun st => (Cell_stat.make_random_move st []).1)
    <$> run (MinesweeperAI.init 1 7) (turns game17)
  = Ret (Raise ZeroDivisionError).
Proof.
  split; [agrees_with_board|].
  split; vm_compute; reflexivity.
Qed.

(** C5. The turns [game15] agree with [board15].  After them no sentence is
    left, and the first cell in row-major order that is neither a known mine
    nor a move made is [(0,0)].  The call of [make_random_move] made then,
    with the table that the earlier call left, returns a cell of that table
    instead: [(0,2)] or [(0,4)], whichever the table lists first, the one a
    confirmed safe cell and the other a confirmed mine.  Both scores are
    [0.5], which is [2^1073] units of [2^-1074]. *)
Theorem random_move_reads_stale_scores :
  Forall (consistent board15 1 5) (turns game15) ∧
  (fun t => (Cell_stat.get t (0, 2), Cell_stat.get t (0, 4), length t)) <$> table15
  = Ret (Some (Float.Finite (2 ^ 1073)), Some (Float.Finite (2 ^ 1073)), 2%nat) ∧
  MinesweeperAI.active <$> run (MinesweeperAI.init 1 5) (turns game15) = Ret [] ∧
  MinesweeperAI.mines <$> run (MinesweeperAI.init 1 5) (turns game15) = Ret {[(0, 4)]} ∧
  MinesweeperAI.first_free <$> run (MinesweeperAI.init 1 5) (turns game15)
  = Ret (Some (0, 0)) ∧
  ∃ c, (tbl ← table15;
        (fun st => (Cell_stat.make_random_move st tbl).1)
          <$> run (MinesweeperAI.init 1 5) (turns game15))
       = Ret (Ret (Some c)) ∧
       (c = (0, 2) ∨ c = (0, 4)) ∧ c ≠ (0, 0).
Proof.
  split; [agrees_with_board|].
  split; [vm_compute; reflexivity|].
  split; [vm_compute; reflexivity|].
  split; [vm_compute; reflexivity|].
  split; [vm_compute; reflexivity|].
  exists (0, 4). split; [vm_compute; reflexivity|]. split; [by right|done].
Qed.

(** * The theorems at concrete inputs *)

Lemma statement_count_invariant_witness :
  ∃ st, run (MinesweeperAI.init 2 3) (turns game23) = Ret st ∧
        Forall count_in_range (MinesweeperAI.active st).
Proof.
  apply (statement_count_invariant board23 2 3 game23 game23).
  - agrees_with_board.
  - reflexivity.
Defined.

Lemma safes_mines_disjoint_witness :
  ∃ st, run (MinesweeperAI.init 2 3) marks23 = Ret st ∧
        MinesweeperAI.safes st ∩ MinesweeperAI.mines st = ∅.
Proof.
  apply (safes_mines_disjoint board23 2 3 marks23 marks23).
  - repeat first [apply List.Forall_nil | apply List.Forall_cons].
    + split; [apply (bool_decide_unpack _); vm_compute; exact I|vm_compute; reflexivity].
    + cbn [consistent]. apply (bool_decide_unpack _); vm_compute; exact I.
    + cbn [consistent]. apply (bool_decide_unpack _); vm_compute; exact I.
    + cbn [consistent]. apply (bool_decide_unpack _); vm_compute; exact I.
  - reflexivity.
Defined.

Lemma new_statement_construction_witness :
  let N := MinesweeperAI.neighbourhood player23 (1, 1) in
  let st' := (MinesweeperAI.insert_new player23 (1, 1) 2).1 in
  let new := (MinesweeperAI.insert_new player23 (1, 1) 2).2 in
  MinesweeperAI.knowledge st' = MinesweeperAI.knowledge player23 ++ [new] ∧
  MinesweeperAI.store st' !! new
  = Some (Sentence.mk (N ∖ MinesweeperAI.safes player23 ∖ MinesweeperAI.mines player23)
                      (2 - Z.of_nat (size (N ∩ MinesweeperAI.mines player23)))).
Proof.
  intros N st' new.
  destruct (new_statement_construction player23 (1, 1) 2) as (Hk & Hnew & Hsame).
  split; [exact Hk|]. fold N in Hsame. rewrite <- Hsame; [exact Hnew|].
  vm_compute. reflexivity.
Defined.

(** C7 as it is written fails where a neighbour is both in [safes] and in
    [mines]: on a 1 by 2 board, after [mark_safe((0,1))] and
    [mark_mine((0,1))], the sentence that [add_knowledge((0,0), 1)] appends
    has no cells and the count [1], not [1 - 1]. *)
Lemma new_statement_keeps_count :
  ∃ st, run (MinesweeperAI.init 1 2) [MarkSafe (0, 1); MarkMine (0, 1)] = Ret st ∧
        let N := MinesweeperAI.neighbourhood st (0, 0) in
        let st' := (MinesweeperAI.insert_new st (0, 0) 1).1 in
        let new := (MinesweeperAI.insert_new st (0, 0) 1).2 in
        MinesweeperAI.store st' !! new = Some (Sentence.mk ∅ 1) ∧
        MinesweeperAI.store st' !! new
        ≠ Some (Sentence.mk (N ∖ MinesweeperAI.safes st ∖ MinesweeperAI.mines st)
                  (1 - Z.of_nat (size (N ∩ MinesweeperAI.mines st)))).
Proof.
  eexists. split; [vm_compute; reflexivity|].
  split; [vm_compute; reflexivity|]. vm_compute. discriminate.
Qed.



Lemma init_board_witness :
  ∃ g, Minesweeper.init 2 2 1 [(1, 0)] = Ret g ∧
       (∀ c, drawn_in 2 2 c →
             Minesweeper.is_mine g c = Ret (bool_decide (c ∈ Minesweeper.mines g))) ∧
       Z.of_nat (size (Minesweeper.mines g)) = 1.
Proof.
  eexists. split; [vm_compute; reflexivity|].
  destruct (init_board 2 2 1 ltac:(lia) ltac:(lia) ltac:(lia)) as [_ Hinit].
  edestruct (Hinit [(1, 0)]) as (Hmine & Hsize & _).
  - repeat first [apply List.Forall_nil | apply List.Forall_cons]. split; simpl; lia.
  - vm_compute. reflexivity.
  - split; [exact Hmine|exact Hsize].
Defined.

(** * Further properties of the code *)

(** ** Sentences and the board *)

(** X1. The three updates of a sentence keep it true of the board: removing a
    cell that is a mine with [mark_mine], removing a cell that is no mine with
    [mark_safe], and taking away a true sentence over a subset of the cells,
    as [check_knowledge] does. *)
Theorem sentence_updates_keep_truth (M : gset Cell) (s : Sentence.t) :
  true_of M s →
  (∀ c, c ∈ M → true_of M (Sentence.mark_mine s c)) ∧
  (∀ c, c ∉ M → true_of M (Sentence.mark_safe s c)) ∧
  (∀ s2, Sentence.cells s2 ⊆ Sentence.cells s → true_of M s2 →
         true_of M (Sentence.subtract s s2)).
Proof.
  intros Hs. split; [|split].
  - intros c Hc. by apply true_mark_mine.
  - intros c Hc. by apply true_mark_safe.
  - intros s2 Hsub Hs2. by apply true_subtract.
Qed.

Lemma sentence_updates_keep_truth_witness :
  true_of {[(0, 0); (0, 2)]} (Sentence.mark_mine sentence3 (0, 0)) ∧
  true_of {[(0, 0); (0, 2)]} (Sentence.mark_safe sentence3 (0, 1)) ∧
  true_of {[(0, 0); (0, 2)]}
          (Sentence.subtract sentence3 (Sentence.mk {[(0, 1); (0, 2)]} 1)).
Proof.
  destruct (sentence_updates_keep_truth {[(0, 0); (0, 2)]} sentence3)
    as (Hmine & Hsafe & Hsub); [vm_compute; reflexivity|].
  split; [|split].
  - apply Hmine. apply (bool_decide_unpack _). vm_compute. exact I.
  - apply Hsafe. apply (bool_decide_unpack _). vm_compute. exact I.
  - apply Hsub; [apply (bool_decide_unpack _); vm_compute; exact I|vm_compute; reflexivity].
Defined.

(** X2. What a true sentence reports is right: the cells that [known_safes]
    returns hold no mine, and the cells that [known_mines] returns are all
    mines. *)
Theorem known_cells_are_right (M : gset Cell) (s : Sentence.t) (X : gset Cell) :
  true_of M s →
  (Sentence.known_safes s = Some X → X ## M) ∧
  (Sentence.known_mines s = Some X → X ⊆ M).
Proof.
  intros Hs. unfold Sentence.known_safes, Sentence.known_mines. split.
  - case_bool_decide; [|done]. intros [= <-]. by apply true_all_safe.
  - repeat case_bool_decide; try done. intros [= <-]. by apply true_all_mines.
Qed.

Lemma known_cells_are_right_witness :
  {[(0, 1); (0, 2)]} ⊆ ({[(0, 1); (0, 2); (0, 4)]} : gset Cell).
Proof.
  apply (known_cells_are_right {[(0, 1); (0, 2); (0, 4)]}
           (Sentence.mk {[(0, 1); (0, 2)]} 2) {[(0, 1); (0, 2)]}).
  - vm_compute. reflexivity.
  - vm_compute. reflexivity.
Defined.

(** ** What [add_knowledge] and [check_knowledge] do to the player *)





















(** ** What the player knows is right *)

(** X5. Along calls of [add_knowledge], [mark_mine] and [mark_safe] that agree
    with a board, the run returns, every cell in [mines] is a mine of the
    board, no cell in [safes] is, and each sentence of the list counts
    exactly the mines among its cells. *)
Theorem knowledge_is_right (M : gset Cell) (height width : Z) (os : list op) :
  Forall (consistent M height width) os →
  ∃ st, run (MinesweeperAI.init height width) os = Ret st ∧
        MinesweeperAI.mines st ⊆ M ∧
        MinesweeperAI.safes st ## M ∧
        Forall (true_of M) (MinesweeperAI.active st).
Proof.
  intros Hos.
  destruct (sound_run M (MinesweeperAI.init height width) os Hos (sound_init M height width))
    as (st & Hrun & Hst).
  exists st. split; [done|]. destruct Hst as [Hstore Hm Hs].
  split; [done|]. split; [done|].
  unfold MinesweeperAI.active. apply Forall_fmap, Forall_forall. intros r _.
  by apply true_deref.
Qed.

Lemma knowledge_is_right_witness :
  ∃ st, run (MinesweeperAI.init 2 3) marks23 = Ret st ∧
        MinesweeperAI.mines st ⊆ board23 ∧
        MinesweeperAI.safes st ## board23 ∧
        Forall (true_of board23) (MinesweeperAI.active st).
Proof.
  apply (knowledge_is_right board23 2 3 marks23).
  repeat first [apply List.Forall_nil | apply List.Forall_cons].
  - split; [apply (bool_decide_unpack _); vm_compute; exact I|vm_compute; reflexivity].
  - cbn [consistent]. apply (bool_decide_unpack _); vm_compute; exact I.
  - cbn [consistent]. apply (bool_decide_unpack _); vm_compute; exact I.
  - cbn [consistent]. apply (bool_decide_unpack _); vm_compute; exact I.
Defined.

Lemma head_elements (X : gset Cell) :
  match head (elements X) with
  | Some c => c ∈ X
  | None => X = ∅
  end.
Proof.
  destruct (elements X) as [|c l] eqn:Hel; simpl.
  - by apply elements_empty_inv, leibniz_equiv in Hel.
  - apply elem_of_elements. rewrite Hel. by left.
Qed.

(** X6. [make_safe_move] returns a cell of [safes] that is not a move made,
    and returns [None] only when every safe cell has been played. *)
Theorem make_safe_move_choice (st : MinesweeperAI.t) :
  match MinesweeperAI.make_safe_move st with
  | Some c => c ∈ MinesweeperAI.safes st ∧ c ∉ MinesweeperAI.moves_made st
  | None => MinesweeperAI.safes st ⊆ MinesweeperAI.moves_made st
  end.
Proof.
  unfold MinesweeperAI.make_safe_move.
  pose proof (head_elements (MinesweeperAI.safes st ∖ MinesweeperAI.moves_made st)) as Hhead.
  destruct (head _) as [c|]; set_solver.
Qed.

(** ** The board and the player together *)

(** X7. On a board that [__init__] returned, [nearby_mines] returns for every
    cell, on the grid or off it, the number of mines in the set that
    [neighbourhood] returns for the cell. *)
Theorem nearby_mines_counts_neighbourhood
    (height width n : Z) (draws : list Cell) (g : Minesweeper.t) (cell : Cell) :
  Forall (drawn_in height width) draws →
  Minesweeper.init height width n draws = Ret g →
  Minesweeper.nearby_mines g cell
  = Ret (Z.of_nat (size (Minesweeper.neighbourhood g cell ∩ Minesweeper.mines g))).
Proof.
  intros Hdraws Hinit. apply nearby_mines_count. by eapply init_board_ok.
Qed.

Lemma nearby_mines_counts_neighbourhood_witness :
  ∃ g, Minesweeper.init 2 2 1 [(1, 0)] = Ret g ∧
       Minesweeper.nearby_mines g (0, 0)
       = Ret (Z.of_nat (size (Minesweeper.neighbourhood g (0, 0) ∩ Minesweeper.mines g))).
Proof.
  eexists. split; [vm_compute; reflexivity|].
  apply (nearby_mines_counts_neighbourhood 2 2 1 [(1, 0)]).
  - repeat first [apply List.Forall_nil | apply List.Forall_cons]. split; simpl; lia.
  - vm_compute. reflexivity.
Defined.

(** X8. A player who is told, for cells of the grid without a mine, the
    counts that [nearby_mines] returns on a board built by [__init__] never
    errs: [add_knowledge] returns each time, every cell in [mines] is a mine
    of the board, no cell in [safes] is, and the cell that [make_safe_move]
    proposes is neither a mine nor a move made. *)
Theorem play_against_board
    (height width n : Z) (draws : list Cell) (g : Minesweeper.t)
    (ts : list (Cell * Z)) :
  Forall (drawn_in height width) draws →
  Minesweeper.init height width n draws = Ret g →
  Forall (revealed g) ts →
  ∃ st, run (MinesweeperAI.init height width) (turns ts) = Ret st ∧
        MinesweeperAI.mines st ⊆ Minesweeper.mines g ∧
        MinesweeperAI.safes st ## Minesweeper.mines g ∧
        ∀ c, MinesweeperAI.make_safe_move st = Some c →
             (c ∉ Minesweeper.mines g) ∧ (c ∉ MinesweeperAI.moves_made st).
Proof.
  intros Hdraws Hinit Hts.
  pose proof (init_board_ok _ _ _ _ _ Hdraws Hinit) as Hok.
  unfold Minesweeper.init in Hinit.
  apply place_ok in Hinit as (_ & _ & Hh & Hw); [|done|apply board_ok_empty].
  simpl in Hh, Hw.
  destruct (sound_run (Minesweeper.mines g) (MinesweeperAI.init height width) (turns ts))
    as (st & Hrun & [Hstore Hm Hs]).
  { simpl. unfold turns. apply Forall_fmap.
    eapply Forall_impl; [exact Hts|]. intros [c k] (Hb & Hmine & Hk).
    rewrite <- Hh, <- Hw. by apply game_turn_consistent. }
  { apply sound_init. }
  exists st. split; [done|]. split; [done|]. split; [done|].
  intros c Hc. unfold MinesweeperAI.make_safe_move in Hc.
  pose proof (head_elements (MinesweeperAI.safes st ∖ MinesweeperAI.moves_made st)) as Hhead.
  rewrite Hc in Hhead. set_solver.
Qed.

Lemma play_against_board_witness :
  ∃ g, Minesweeper.init 2 2 1 [(1, 0)] = Ret g ∧
  ∃ st, run (MinesweeperAI.init 2 2) (turns [((0, 0), 1)]) = Ret st ∧
        MinesweeperAI.mines st ⊆ Minesweeper.mines g ∧
        MinesweeperAI.safes st ## Minesweeper.mines g ∧
        ∀ c, MinesweeperAI.make_safe_move st = Some c →
             (c ∉ Minesweeper.mines g) ∧ (c ∉ MinesweeperAI.moves_made st).
Proof.
  eexists. split; [vm_compute; reflexivity|].
  apply (play_against_board 2 2 1 [(1, 0)] _ [((0, 0), 1)]).
  - repeat first [apply List.Forall_nil | apply List.Forall_cons]. split; simpl; lia.
  - vm_compute. reflexivity.
  - repeat first [apply List.Forall_nil | apply List.Forall_cons].
    split; [split; simpl; lia|]. split; vm_compute; reflexivity.
Defined.

(** ** Neighbourhoods *)

Lemma length_square (cell : Cell) : length (Minesweeper.square cell) = 9%nat.
Proof.
  unfold Minesweeper.square.
  rewrite (length_bind_const _ 3%nat), length_seqZ; [done|].
  intros i. by rewrite (length_bind_const _ 1%nat), length_seqZ.
Qed.

(** X9. The neighbourhood of a cell, as both classes compute it, is the set of
    cells of the grid other than the cell itself that are at most one row and
    one column away; it has at most eight cells; and a cell of the grid is in
    the neighbourhood of each of its neighbours. *)
Theorem neighbourhood_cells (st : MinesweeperAI.t) (cell : Cell) :
  (∀ c, c ∈ MinesweeperAI.neighbourhood st cell ↔
        c ≠ cell ∧
        MinesweeperAI.in_bounds (MinesweeperAI.height st) (MinesweeperAI.width st) c ∧
        Z.abs (c.1 - cell.1) ≤ 1 ∧ Z.abs (c.2 - cell.2) ≤ 1) ∧
  (size (MinesweeperAI.neighbourhood st cell) ≤ 8)%nat ∧
  (∀ c, MinesweeperAI.in_bounds (MinesweeperAI.height st) (MinesweeperAI.width st) cell →
        c ∈ MinesweeperAI.neighbourhood st cell →
        cell ∈ MinesweeperAI.neighbourhood st c) ∧
  (∀ g, Minesweeper.height g = MinesweeperAI.height st →
        Minesweeper.width g = MinesweeperAI.width st →
        Minesweeper.neighbourhood g cell = MinesweeperAI.neighbourhood st cell).
Proof.
  assert (∀ cell c, c ∈ MinesweeperAI.neighbourhood st cell ↔
        c ≠ cell ∧
        MinesweeperAI.in_bounds (MinesweeperAI.height st) (MinesweeperAI.width st) c ∧
        Z.abs (c.1 - cell.1) ≤ 1 ∧ Z.abs (c.2 - cell.2) ≤ 1) as Hin.
  { intros cell' c. unfold MinesweeperAI.neighbourhood.
    rewrite elem_of_list_to_set, elem_of_around.
    split; intros (Hne & Hb & H1 & H2); (split; [exact Hne|]); (split; [exact Hb|]); lia. }
  split; [apply Hin|]. split; [|split].
  - assert (MinesweeperAI.neighbourhood st cell
            ⊆ list_to_set (Minesweeper.square cell) ∖ {[cell]}) as Hsub.
    { intros c Hc. apply Hin in Hc as (Hne & _ & H1 & H2).
      apply elem_of_difference. split; [|by rewrite elem_of_singleton].
      apply elem_of_list_to_set, elem_of_square. lia. }
    apply subseteq_size in Hsub.
    rewrite size_difference in Hsub.
    + rewrite size_singleton, size_list_to_set, length_square in Hsub
        by apply NoDup_square. lia.
    + apply singleton_subseteq_l, elem_of_list_to_set, elem_of_square. lia.
  - intros c Hb Hc. apply Hin in Hc as (Hne & _ & H1 & H2).
    apply Hin. split; [done|]. split; [done|lia].
  - intros g Hh Hw. unfold Minesweeper.neighbourhood, MinesweeperAI.neighbourhood.
    by rewrite Hh, Hw.
Qed.

Lemma neighbourhood_cells_witness :
  (1, 1) ∈ MinesweeperAI.neighbourhood player23 (0, 0).
Proof.
  apply (proj1 (proj2 (proj2 (neighbourhood_cells player23 (1, 1)))) (0, 0)).
  - split; simpl; lia.
  - apply (bool_decide_unpack _). vm_compute. exact I.
Defined.

(** ** The order of marking *)

Lemma sentence_mark_mine_comm (s : Sentence.t) (a b : Cell) :
  Sentence.mark_mine (Sentence.mark_mine s a) b
  = Sentence.mark_mine (Sentence.mark_mine s b) a.
Proof.
  destruct (decide (a = b)) as [->|Hne]; [done|].
  unfold Sentence.mark_mine.
  repeat (case_bool_decide; simpl in * ); try done;
    try (f_equal; set_solver); try (exfalso; set_solver).
Qed.

Lemma sentence_mark_safe_idemp (s : Sentence.t) (c : Cell) :
  Sentence.mark_safe (Sentence.mark_safe s c) c = Sentence.mark_safe s c.
Proof.
  assert (c ∉ Sentence.cells (Sentence.mark_safe s c)) as Hc.
  { unfold Sentence.mark_safe. case_bool_decide; simpl; set_solver. }
  unfold Sentence.mark_safe at 1. by rewrite bool_decide_false.
Qed.

Lemma sentence_mark_safe_comm (s : Sentence.t) (a b : Cell) :
  Sentence.mark_safe (Sentence.mark_safe s a) b
  = Sentence.mark_safe (Sentence.mark_safe s b) a.
Proof.
  destruct (decide (a = b)) as [->|Hne]; [done|].
  unfold Sentence.mark_safe.
  repeat (case_bool_decide; simpl in * ); try done;
    try (f_equal; set_solver); try (exfalso; set_solver).
Qed.

(** Two rounds of [for sentence in self.knowledge] with commuting updates. *)
Lemma update_all_comm (f g : Sentence.t → Sentence.t) (k : list nat) (h : list Sentence.t) :
  (∀ x, f (f x) = f x) → (∀ x, g (g x) = g x) → (∀ x, f (g x) = g (f x)) →
  foldl (fun h r => alter f r h) (foldl (fun h r => alter g r h) h k) k
  = foldl (fun h r => alter g r h) (foldl (fun h r => alter f r h) h k) k.
Proof.
  intros Hf Hg Hfg. apply list_eq. intros i.
  rewrite !foldl_alter_lookup by done.
  case_bool_decide; [|done].
  destruct (h !! i); simpl; [|done]. by rewrite Hfg.
Qed.

Lemma mark_mine_comm (st : MinesweeperAI.t) (a b : Cell) :
  MinesweeperAI.mark_mine (MinesweeperAI.mark_mine st a) b
  = MinesweeperAI.mark_mine (MinesweeperAI.mark_mine st b) a.
Proof.
  unfold MinesweeperAI.mark_mine, MinesweeperAI.update_all. simpl. f_equal; [set_solver|].
  apply update_all_comm; intros s;
    [apply sentence_mark_mine_idemp..|apply sentence_mark_mine_comm].
Qed.

Lemma mark_safe_comm (st : MinesweeperAI.t) (a b : Cell) :
  MinesweeperAI.mark_safe (MinesweeperAI.mark_safe st a) b
  = MinesweeperAI.mark_safe (MinesweeperAI.mark_safe st b) a.
Proof.
  unfold MinesweeperAI.mark_safe, MinesweeperAI.update_all. simpl. f_equal; [set_solver|].
  apply update_all_comm; intros s;
    [apply sentence_mark_safe_idemp..|apply sentence_mark_safe_comm].
Qed.

Lemma foldl_comm_permutation {A B : Type} (f : A → B → A) (l l' : list B) (a : A) :
  (∀ a x y, f (f a x) y = f (f a y) x) → l ≡ₚ l' → foldl f a l = foldl f a l'.
Proof.
  intros Hf Hperm. revert a.
  induction Hperm as [|x l l' _ IH|x y l|l1 l2 l3 _ IH1 _ IH2]; intros a; simpl.
  - done.
  - apply IH.
  - by rewrite Hf.
  - by rewrite IH1.
Qed.

(** X10. Marking a set of cells as mines, or as safe, gives the same player
    whatever the order in which the loop visits the cells. *)
Theorem marking_order_irrelevant (st : MinesweeperAI.t) (cs cs' : list Cell) :
  cs ≡ₚ cs' →
  foldl MinesweeperAI.mark_mine st cs = foldl MinesweeperAI.mark_mine st cs' ∧
  foldl MinesweeperAI.mark_safe st cs = foldl MinesweeperAI.mark_safe st cs'.
Proof.
  intros Hperm. split.
  - apply foldl_comm_permutation; [|done]. intros. apply mark_mine_comm.
  - apply foldl_comm_permutation; [|done]. intros. apply mark_safe_comm.
Qed.

Lemma marking_order_irrelevant_witness :
  foldl MinesweeperAI.mark_mine (pair_kb [0; 1]%nat) [(0, 1); (0, 3)]
  = foldl MinesweeperAI.mark_mine (pair_kb [0; 1]%nat) [(0, 3); (0, 1)] ∧
  foldl MinesweeperAI.mark_safe (pair_kb [0; 1]%nat) [(0, 1); (0, 3)]
  = foldl MinesweeperAI.mark_safe (pair_kb [0; 1]%nat) [(0, 3); (0, 1)].
Proof.
  apply (marking_order_irrelevant (pair_kb [0; 1]%nat) [(0, 1); (0, 3)] [(0, 3); (0, 1)]).
  apply perm_swap.
Defined.

(** ** Errors of [make_random_move], [is_mine] and [__init__] *)







Lemma index_wraps {A : Type} (l : list A) (i : Z) (x : A) :
  i < 0 → l !! Z.to_nat (Z.of_nat (length l) + i) = Some x → 0 ≤ Z.of_nat (length l) + i →
  Minesweeper.index l i = Ret x.
Proof.
  intros Hi Hx Hge. unfold Minesweeper.index. cbv zeta.
  rewrite (bool_decide_true (i < 0)) by done.
  rewrite bool_decide_true by lia. by rewrite Hx.
Qed.

Lemma index_outside {A : Type} (l : list A) (i : Z) :
  i < - Z.of_nat (length l) ∨ Z.of_nat (length l) ≤ i →
  Minesweeper.index l i = Raise IndexError.
Proof.
  intros Hi. unfold Minesweeper.index. cbv zeta.
  destruct (decide (i < 0)) as [Hneg|Hneg].
  - rewrite (bool_decide_true (i < 0)) by done. by rewrite bool_decide_false by lia.
  - rewrite (bool_decide_false (i < 0)) by done. by rewrite bool_decide_false by lia.
Qed.

Lemma index_inside {A : Type} (l : list A) (i : Z) :
  - Z.of_nat (length l) ≤ i < Z.of_nat (length l) →
  ∃ x, Minesweeper.index l i = Ret x ∧ x ∈ l.
Proof.
  intros Hi. destruct (decide (i < 0)) as [Hneg|Hneg].
  - destruct (lookup_lt_is_Some_2 l (Z.to_nat (Z.of_nat (length l) + i))) as [x Hx]; [lia|].
    exists x. split; [apply index_wraps; [done..|lia]|by eapply list_elem_of_lookup_2].
  - destruct (lookup_lt_is_Some_2 l (Z.to_nat i)) as [x Hx]; [lia|].
    exists x. split; [apply index_Ret; [lia|done]|by eapply list_elem_of_lookup_2].
Qed.

(** The index that Python uses for [i] in a list of length [n]. *)
Lemma is_mine_at (g : Minesweeper.t) (i j : Z) :
  board_ok g →
  - Minesweeper.height g ≤ i < Minesweeper.height g →
  - Minesweeper.width g ≤ j < Minesweeper.width g →
  Minesweeper.is_mine g (i, j)
  = Ret (bool_decide ((i `mod` Minesweeper.height g, j `mod` Minesweeper.width g)
                      ∈ Minesweeper.mines g)).
Proof.
  intros Hok Hi Hj.
  assert (∀ n k, - n ≤ k < n → 0 ≤ k `mod` n < n ∧
                 k `mod` n = if bool_decide (k < 0) then n + k else k) as Hmod.
  { intros n k Hk. case_bool_decide.
    - rewrite <- (Z.mod_add k 1 n), Z.mod_small by lia. lia.
    - rewrite Z.mod_small by lia. lia. }
  destruct (Hmod _ _ Hi) as [Hi' Hie]. destruct (Hmod _ _ Hj) as [Hj' Hje].
  rewrite <- (is_mine_ok g (i `mod` Minesweeper.height g, j `mod` Minesweeper.width g) Hok)
    by done.
  destruct Hok as [Hrows Hcols Hcells Hmines].
  unfold Minesweeper.is_mine, Minesweeper.index. cbv zeta. simpl.
  rewrite Hrows, !Z2Nat.id by lia.
  rewrite (bool_decide_false (i `mod` _ < 0)) by lia.
  rewrite <- Hie.
  rewrite !(bool_decide_true (0 ≤ i `mod` _ < _)) by lia.
  destruct (lookup_lt_is_Some_2 (Minesweeper.board g) (Z.to_nat (i `mod` Minesweeper.height g)))
    as [row Hrow]; [lia|].
  pose proof (Forall_lookup_1 _ _ _ _ Hcols Hrow) as Hlen. simpl in Hlen.
  rewrite Hrow. simpl. rewrite Hlen, !Z2Nat.id by lia.
  rewrite (bool_decide_false (j `mod` _ < 0)) by lia.
  by rewrite <- Hje.
Qed.

(** X12. On a board that [__init__] returned, [is_mine] reads the grid with
    Python's indices: a row index from [-height] to [height - 1] and a column
    index from [-width] to [width - 1] give the cell at the indices taken
    modulo the size, so a negative index reads from the far edge; any other
    index raises [IndexError]. *)
Theorem is_mine_indices
    (height width n : Z) (draws : list Cell) (g : Minesweeper.t) (i j : Z) :
  Forall (drawn_in height width) draws →
  Minesweeper.init height width n draws = Ret g →
  (- height ≤ i < height → - width ≤ j < width →
   Minesweeper.is_mine g (i, j)
   = Ret (bool_decide ((i `mod` height, j `mod` width) ∈ Minesweeper.mines g))) ∧
  (i < - height ∨ height ≤ i ∨ j < - width ∨ width ≤ j →
   Minesweeper.is_mine g (i, j) = Raise IndexError).
Proof.
  intros Hdraws Hinit.
  pose proof (init_board_ok _ _ _ _ _ Hdraws Hinit) as Hok.
  unfold Minesweeper.init in Hinit.
  apply place_ok in Hinit as (_ & _ & Hh & Hw); [|done|apply board_ok_empty].
  simpl in Hh, Hw. rewrite <- Hh, <- Hw. split.
  - intros Hi Hj. by apply is_mine_at.
  - intros Hout.
    destruct Hok as [Hrows Hcols Hcells Hmines].
    unfold Minesweeper.is_mine. simpl.
    destruct (decide (i < - Minesweeper.height g ∨ Minesweeper.height g ≤ i)) as [Hi|Hi].
    + rewrite index_outside; [done|]. rewrite Hrows. lia.
    + destruct (index_inside (Minesweeper.board g) i) as (row & -> & Hin);
        [rewrite Hrows; lia|]. simpl.
      eapply Forall_forall in Hcols; [|exact Hin]. simpl in Hcols.
      apply index_outside. rewrite Hcols. lia.
Qed.

Lemma is_mine_indices_witness :
  ∃ g, Minesweeper.init 2 2 1 [(1, 0)] = Ret g ∧
       Minesweeper.is_mine g (-1, -2)
       = Ret (bool_decide (((-1) `mod` 2, (-2) `mod` 2) ∈ Minesweeper.mines g)) ∧
       Minesweeper.is_mine g (0, 2) = Raise IndexError.
Proof.
  eexists. split; [vm_compute; reflexivity|].
  split.
  - apply (proj1 (is_mine_indices 2 2 1 [(1, 0)] _ (-1) (-2)
       ltac:(repeat first [apply List.Forall_nil | apply List.Forall_cons]; split; simpl; lia)
       ltac:(vm_compute; reflexivity))); lia.
  - apply (proj2 (is_mine_indices 2 2 1 [(1, 0)] _ 0 2
       ltac:(repeat first [apply List.Forall_nil | apply List.Forall_cons]; split; simpl; lia)
       ltac:(vm_compute; reflexivity))); lia.
Defined.

Lemma place_never_raises (draws : list Cell) (g : Minesweeper.t) (n : Z) (e : exn) :
  board_ok g → 0 < Minesweeper.height g → 0 < Minesweeper.width g →
  Forall (drawn_in (Minesweeper.height g) (Minesweeper.width g)) draws →
  Minesweeper.place draws g n ≠ Raise e.
Proof.
  intros Hok Hh Hw Hdraws. revert g Hok Hh Hw Hdraws.
  induction draws as [|[i j] draws IH]; intros g Hok Hh Hw Hdraws; simpl.
  - case_bool_decide; [done|]. by rewrite bool_decide_false by lia.
  - case_bool_decide as Hn; [done|].
    rewrite bool_decide_false by lia.
    apply Forall_cons in Hdraws as [[Hi Hj] Hdraws]. simpl in Hi, Hj.
    pose proof Hok as [Hrows Hcols Hcells Hmines].
    destruct (lookup_lt_is_Some_2 (Minesweeper.board g) (Z.to_nat i)) as [row Hrow];
      [lia|].
    pose proof (Forall_lookup_1 _ _ _ _ Hcols Hrow) as Hlen. simpl in Hlen.
    destruct (lookup_lt_is_Some_2 row (Z.to_nat j)) as [b Hb]; [lia|].
    rewrite (index_Ret _ _ _ (proj1 Hi) Hrow). simpl.
    rewrite (index_Ret _ _ _ (proj1 Hj) Hb). simpl.
    destruct b; [by apply IH|].
    rewrite !assign_Ret by lia. simpl. rewrite assign_Ret by lia. simpl.
    apply IH; simpl; [|done..]. by apply board_ok_place_one.
Qed.

Lemma mines_fit_grid (g : Minesweeper.t) :
  0 ≤ Minesweeper.height g → 0 ≤ Minesweeper.width g → board_ok g →
  Z.of_nat (size (Minesweeper.mines g)) ≤ Minesweeper.height g * Minesweeper.width g.
Proof.
  intros Hh Hw Hok.
  assert (Minesweeper.mines g
          ⊆ list_to_set (grid_cells (Minesweeper.height g) (Minesweeper.width g))) as Hsub.
  { intros c Hc. apply elem_of_list_to_set, elem_of_grid_cells.
    by apply (ok_mines _ Hok). }
  apply subseteq_size in Hsub.
  rewrite size_list_to_set, length_grid_cells in Hsub by apply NoDup_grid_cells.
  nia.
Qed.

(** X13. [__init__] at the edges of its arguments, for draws that [randrange]
    can give.  Asked for no mine it returns the empty field at once; asked
    for some on a grid without rows or columns it raises the [ValueError] of
    [randrange]; and asked for a negative number of mines, or for more than
    the grid has cells, the placement loop is still running after any number
    of draws. *)
Theorem init_edge_cases (height width n : Z) (draws : list Cell) :
  Forall (drawn_in height width) draws →
  (n = 0 →
   Minesweeper.init height width n draws
   = Ret (Minesweeper.mk height width ∅ (Minesweeper.empty_board height width) ∅)) ∧
  (n ≠ 0 → height ≤ 0 ∨ width ≤ 0 →
   Minesweeper.init height width n draws = Raise ValueError) ∧
  (0 < height → 0 < width → n < 0 ∨ height * width < n →
   Minesweeper.init height width n draws = OutOfFuel).
Proof.
  intros Hdraws. unfold Minesweeper.init. split; [|split].
  - intros ->.
    destruct draws as [|[i j] draws];
      cbn [Minesweeper.place Minesweeper.mines];
      by rewrite bool_decide_true by (by rewrite size_empty).
  - intros Hn Hdim.
    destruct draws as [|[i j] draws];
      cbn [Minesweeper.place Minesweeper.mines Minesweeper.height Minesweeper.width];
      rewrite bool_decide_false by (rewrite size_empty; simpl; lia);
      by rewrite bool_decide_true.
  - intros Hh Hw Hn.
    destruct (Minesweeper.place draws _ n) as [g|e|] eqn:Hplace; [| |done].
    + apply place_ok in Hplace as (Hok & Hsize & Hhg & Hwg);
        [|done|apply board_ok_empty]. simpl in Hhg, Hwg.
      pose proof (mines_fit_grid g) as Hfit. rewrite Hhg, Hwg in Hfit.
      specialize (Hfit ltac:(lia) ltac:(lia) Hok). lia.
    + by apply place_never_raises in Hplace; [|apply board_ok_empty|..].
Qed.

Lemma init_edge_cases_witness :
  Minesweeper.init 2 2 0 [(1, 0)]
  = Ret (Minesweeper.mk 2 2 ∅ (Minesweeper.empty_board 2 2) ∅) ∧
  Minesweeper.init 0 2 1 [] = Raise ValueError ∧
  Minesweeper.init 2 2 5 [(1, 0); (0, 0); (0, 1); (1, 1); (1, 0)] = OutOfFuel.
Proof.
  split; [|split].
  - apply (proj1 (init_edge_cases 2 2 0 [(1, 0)]
      ltac:(repeat first [apply List.Forall_nil | apply List.Forall_cons]; split; simpl; lia))).
    reflexivity.
  - apply (proj1 (proj2 (init_edge_cases 0 2 1 [] ltac:(apply List.Forall_nil)))); lia.
  - apply (proj2 (proj2 (init_edge_cases 2 2 5 [(1, 0); (0, 0); (0, 1); (1, 1); (1, 0)]
      ltac:(repeat first [apply List.Forall_nil | apply List.Forall_cons]; split; simpl; lia))));
      lia.
Defined.

(** ** The scan of [make_random_move] over the board *)

Lemma seqZ_sorted (m n : Z) : StronglySorted Z.lt (seqZ m n).
Proof.
  remember (Z.to_nat n) as k eqn:Hk. revert m n Hk.
  induction k as [|k IH]; intros m n Hk.
  - rewrite seqZ_nil by lia. constructor.
  - rewrite seqZ_cons by lia. apply StronglySorted_cons. split.
    + apply Forall_forall. intros x Hx%elem_of_seqZ. lia.
    + apply IH. lia.
Qed.

Lemma row_sorted (i : Z) (js : list Z) :
  StronglySorted Z.lt js → StronglySorted before (js ≫= fun j => [(i, j)]).
Proof.
  induction 1 as [|j js _ IH Hj]; [constructor|].
  rewrite bind_cons. simpl. apply StronglySorted_cons. split; [|done].
  apply Forall_forall. intros c (j' & ->%list_elem_of_singleton & Hj')%list_elem_of_bind.
  eapply Forall_forall in Hj; [|exact Hj']. right. simpl. lia.
Qed.

Lemma rows_sorted (width : Z) (rows : list Z) :
  StronglySorted Z.lt rows →
  StronglySorted before (rows ≫= fun i => seqZ 0 width ≫= fun j => [(i, j)]).
Proof.
  induction 1 as [|i rows _ IH Hi]; [constructor|].
  rewrite bind_cons. apply StronglySorted_app. split; [|split].
  - intros c1 c2 (j1 & ->%list_elem_of_singleton & _)%list_elem_of_bind
      (i2 & (j2 & ->%list_elem_of_singleton & _)%list_elem_of_bind & Hi2)%list_elem_of_bind.
    eapply Forall_forall in Hi; [|exact Hi2]. left. simpl. lia.
  - apply row_sorted, seqZ_sorted.
  - done.
Qed.

Lemma grid_cells_sorted (height width : Z) :
  StronglySorted before (grid_cells height width).
Proof. apply rows_sorted, seqZ_sorted. Qed.

(** X14. The scan that [make_random_move] falls back on goes over the board
    row by row: the cell it finds is on the board, is neither a known mine
    nor a move made, and every cell of the board before it in row-major order
    is one or the other; it finds none only when every cell of the board is.
    With an empty score table and no sentence, [make_random_move] returns
    what the scan finds and leaves the table empty. *)
Theorem first_free_scan (st : MinesweeperAI.t) :
  match MinesweeperAI.first_free st with
  | Some c =>
      MinesweeperAI.in_bounds (MinesweeperAI.height st) (MinesweeperAI.width st) c ∧
      free st c ∧
      ∀ c', MinesweeperAI.in_bounds (MinesweeperAI.height st) (MinesweeperAI.width st) c' →
            before c' c → ¬ free st c'
  | None =>
      ∀ c', MinesweeperAI.in_bounds (MinesweeperAI.height st) (MinesweeperAI.width st) c' →
            ¬ free st c'
  end ∧
  (MinesweeperAI.active st = [] →
   Cell_stat.make_random_move st [] = (Ret (MinesweeperAI.first_free st), [])).
Proof.
  split; [|apply make_random_move_fresh_empty].
  unfold MinesweeperAI.first_free.
  change (MinesweeperAI.board_cells st)
    with (grid_cells (MinesweeperAI.height st) (MinesweeperAI.width st)).
  fold (free st).
  destruct (head (filter (free st) _)) as [c|] eqn:Hhead.
  - pose proof (head_Some_elem_of _ _ Hhead) as [Hfree Hc]%list_elem_of_filter.
    apply head_filter_Some in Hhead as (l1 & l2 & Hsplit & Hl1).
    split; [by apply elem_of_grid_cells in Hc|]. split; [done|].
    intros c' Hc' Hbefore.
    pose proof (grid_cells_sorted (MinesweeperAI.height st) (MinesweeperAI.width st)) as Hs.
    rewrite Hsplit in Hs.
    assert (c' ∈ l1 ++ c :: l2) as Hin.
    { rewrite <- Hsplit. by apply elem_of_grid_cells. }
    apply elem_of_app in Hin as [Hin|Hin].
    + by eapply Forall_forall in Hl1.
    + apply StronglySorted_app_1_r, StronglySorted_cons in Hs as [Hs _].
      apply elem_of_cons in Hin as [->|Hin].
      * unfold before in Hbefore. lia.
      * eapply Forall_forall in Hs; [|exact Hin].
        unfold before in Hbefore, Hs. lia.
  - intros c' Hc' Hfree. apply head_None in Hhead.
    eapply filter_nil_not_elem_of; [exact Hhead|exact Hfree|].
    by apply elem_of_grid_cells.
Qed.

Lemma first_free_scan_witness :
  Cell_stat.make_random_move (MinesweeperAI.init 2 3) []
  = (Ret (MinesweeperAI.first_free (MinesweeperAI.init 2 3)), []).
Proof.
  apply (proj2 (first_free_scan (MinesweeperAI.init 2 3))). reflexivity.
Defined.

(** ** Sentences never mention a cell that is already known *)





















(** ** The first [make_random_move] of a program *)
















(** ** [Minesweeper.print] *)

Lemma print_row_ok (g : Minesweeper.t) (i : Z) (js : list Z) :
  board_ok g → 0 ≤ i < Minesweeper.height g →
  Forall (fun j => 0 ≤ j < Minesweeper.width g) js →
  Minesweeper.print_row g i js
  = (((fun j => if bool_decide ((i, j) ∈ Minesweeper.mines g) then "|X" else "| ") <$> js)
     ++ ["|" +:+ Minesweeper.newline], Ret ()).
Proof.
  intros Hok Hi Hjs. induction Hjs as [|j js Hj _ IH]; [done|].
  cbn [Minesweeper.print_row]. rewrite (is_mine_ok g (i, j) Hok), IH by done.
  done.
Qed.

Lemma print_rows_ok (g : Minesweeper.t) (rows : list Z) :
  board_ok g → Forall (fun i => 0 ≤ i < Minesweeper.height g) rows →
  Minesweeper.print_rows g rows
  = ((i ← rows; Minesweeper.rule g
                :: picture_row (Minesweeper.mines g) (Minesweeper.width g) i)
     ++ [Minesweeper.rule g], Ret ()).
Proof.
  intros Hok Hrows. induction Hrows as [|i rows Hi _ IH]; [done|].
  cbn [Minesweeper.print_rows]. rewrite (print_row_ok g i _ Hok Hi).
  - rewrite IH. cbn [mbind list_bind]. unfold picture_row.
    by rewrite <- !app_comm_cons, <- !app_assoc.
  - apply Forall_forall. intros j Hj%elem_of_seqZ. lia.
Qed.

Lemma rule_not_cell (g : Minesweeper.t) : Minesweeper.rule g ≠ "|X".
Proof.
  unfold Minesweeper.rule.
  by destruct (Z.to_nat (Minesweeper.width g)) as [|[|n]].
Qed.

Lemma marks_of_row (M : gset Cell) (i : Z) (js : list Z) :
  length (filter (fun s => s = "|X")
            ((fun j => if bool_decide ((i, j) ∈ M) then "|X" else "| ") <$> js))
  = length (filter (fun c => c ∈ M) (j ← js; [(i, j)])).
Proof.
  induction js as [|j js IH]; [done|]. cbn [fmap list_fmap mbind list_bind app].
  rewrite !filter_cons. destruct (decide ((i, j) ∈ M)) as [Hin|Hin].
  - rewrite bool_decide_true by done. rewrite decide_True by done.
    cbn [length]. f_equal. apply IH.
  - rewrite bool_decide_false by done. rewrite decide_False by done. apply IH.
Qed.

Lemma marks_of_picture (M : gset Cell) (w : Z) (line : string) (rows : list Z) :
  line ≠ "|X" →
  length (filter (fun s => s = "|X") ((i ← rows; line :: picture_row M w i) ++ [line]))
  = length (filter (fun c => c ∈ M) (i ← rows; j ← seqZ 0 w; [(i, j)])).
Proof.
  intros Hline. induction rows as [|i rows IH].
  - cbn. by rewrite decide_False.
  - cbn [mbind list_bind].
    rewrite <- app_assoc, filter_app, length_app, IH, (filter_app _ (_ ≫= _)), length_app.
    f_equal. rewrite filter_cons, decide_False by done. unfold picture_row.
    rewrite filter_app, length_app, marks_of_row.
    assert (length (filter (fun s : string => s = "|X") ["|" +:+ Minesweeper.newline])
            = 0%nat) as -> by done.
    lia.
Qed.

(** X17. [print] on a board built by [__init__]: the method returns, and
    what it writes is the picture of the mine set, a rule above every row and
    below the last one, and in each row one text for each cell, ["|X"]
    exactly on the mines, then the closing bar; so the number of ["|X"]
    written is the number of mines. *)
Theorem print_shows_mines
    (height width n : Z) (draws : list Cell) (g : Minesweeper.t) :
  Forall (drawn_in height width) draws →
  Minesweeper.init height width n draws = Ret g →
  Minesweeper.print g
  = (picture (Minesweeper.mines g) (Minesweeper.height g) (Minesweeper.width g)
       (Minesweeper.rule g), Ret ())
  ∧ length (filter (fun s => s = "|X") (Minesweeper.print g).1)
    = size (Minesweeper.mines g).
Proof.
  intros Hdraws Hinit. pose proof (init_board_ok _ _ _ _ _ Hdraws Hinit) as Hok.
  assert (Minesweeper.print g
          = (picture (Minesweeper.mines g) (Minesweeper.height g) (Minesweeper.width g)
               (Minesweeper.rule g), Ret ())) as Hprint.
  { unfold Minesweeper.print, picture. apply print_rows_ok; [done|].
    apply Forall_forall. intros i Hi%elem_of_seqZ. lia. }
  split; [done|]. rewrite Hprint. cbn [fst]. unfold picture.
  rewrite marks_of_picture by apply rule_not_cell.
  fold (grid_cells (Minesweeper.height g) (Minesweeper.width g)).
  rewrite <- (size_list_to_set (C:=gset Cell)).
  - f_equal. apply set_eq. intros c.
    rewrite elem_of_list_to_set, list_elem_of_filter, elem_of_grid_cells.
    split; [by intros []|]. intros Hc. split; [done|]. by apply (ok_mines _ Hok).
  - apply NoDup_filter, NoDup_grid_cells.
Qed.

Lemma print_shows_mines_witness :
  ∃ g, Minesweeper.init 2 2 1 [(1, 0)] = Ret g ∧
       Minesweeper.print g
       = (picture (Minesweeper.mines g) 2 2 (Minesweeper.rule g), Ret ()) ∧
       length (filter (fun s => s = "|X") (Minesweeper.print g).1) = 1%nat.
Proof.
  eexists. split; [vm_compute; reflexivity|].
  apply (print_shows_mines 2 2 1 [(1, 0)]).
  - repeat first [apply List.Forall_nil | apply List.Forall_cons]. split; simpl; lia.
  - vm_compute. reflexivity.
Defined.

(** ** [Minesweeper.won] *)

Lemma place_result (draws : list Cell) (g g' : Minesweeper.t) (n : Z) :
  Minesweeper.place draws g n = Ret g' →
  Z.of_nat (size (Minesweeper.mines g')) = n ∧
  Minesweeper.mines_found g' = Minesweeper.mines_found g.
Proof.
  revert g. induction draws as [|[i j] draws IH]; intros g; simpl.
  - case_bool_decide; [by intros [= <-]|]. by case_bool_decide.
  - case_bool_decide as Hn; [by intros [= <-]|].
    case_bool_decide; [done|].
    destruct (Minesweeper.index (Minesweeper.board g) i) as [row| |]; simpl; [|done..].
    destruct (Minesweeper.index row j) as [[]| |]; simpl; [by apply IH| |done..].
    destruct (Minesweeper.assign row j true) as [row'| |]; simpl; [|done..].
    destruct (Minesweeper.assign (Minesweeper.board g) i row') as [board'| |];
      simpl; [|done..].
    intros Hplace. by apply IH in Hplace.
Qed.

(** X18. No method of [Minesweeper] adds to [mines_found], which [__init__]
    leaves empty: on a board that [__init__] has built, [won] answers [True]
    exactly when the board was asked to hold no mine, also after any calls of
    the other methods. *)
Theorem won_only_without_mines
    (height width n : Z) (draws : list Cell) (g : Minesweeper.t) (qs : list query) :
  Minesweeper.init height width n draws = Ret g →
  Minesweeper.won (after_calls g qs) = bool_decide (n = 0).
Proof.
  intros Hinit. rewrite after_calls_same.
  apply place_result in Hinit as [Hsize Hfound]. simpl in Hfound.
  unfold Minesweeper.won. rewrite Hfound. apply bool_decide_ext.
  split.
  - intros Hm. by rewrite <- Hm, size_empty in Hsize.
  - intros Hn. symmetry. apply leibniz_equiv, size_empty_iff. lia.
Qed.

Lemma won_only_without_mines_witness :
  ∃ g, Minesweeper.init 2 2 1 [(1, 0)] = Ret g ∧
       Minesweeper.won (after_calls g [IsMine (1, 0); Won]) = false.
Proof.
  eexists. split; [vm_compute; reflexivity|].
  apply (won_only_without_mines 2 2 1 [(1, 0)]). vm_compute. reflexivity.
Defined.
